(** * SimpleTuner: aspect-ratio bucketing and geometry-aware resizing

    A shallow embedding of
      - [helpers/multiaspect/image.py]        (class [MultiaspectImage])
      - [helpers/legacy/dreambooth_dataset.py] (class [DreamBoothDataset])
    and the properties of the specification that concern them.

    Conventions of the embedding.
      - Python [int] is [Z].
      - Python [float] is a rational [Q]; every float operation rounds its
        exact result to the nearest binary64 value, ties to even ([fl]).
        The exponent range is unbounded: overflow, subnormals, infinities
        and NaN are outside the model.
      - A raised exception is a value of [exn]; a function that can raise
        returns a [result].  A [while] loop takes fuel and yields
        [OutOfFuel] when the fuel runs out before the loop condition fails.
      - A [dict] of bucket key to file list is a [gmap string (list string)].
*)

From Stdlib Require Import ZArith QArith Qround Qabs Qpower Lqa Lia Ascii String.
From stdpp Require Import gmap strings list fin_maps pretty.

Local Open Scope Z_scope.

(* ===================================================================== *)
(** * Python prelude                                                      *)
(* ===================================================================== *)

(** Exceptions that the modelled code can raise. *)
Inductive exn : Type :=
  | ValueError (msg : string)
  | TypeError
  | ZeroDivisionError
  | AttributeError
  | UnboundLocalError (var : string)
  | FileNotFoundError
  | JSONDecodeError
  | DecodeError (msg : string).

(** Outcome of a call: a value, a raised exception, or the fuel of a
    [while] loop used up before its condition became false. *)
Inductive result (A : Type) : Type :=
  | Ok (a : A)
  | Raise (e : exn)
  | OutOfFuel.
Arguments Ok {A} a.
Arguments Raise {A} e.
Arguments OutOfFuel {A}.

Definition bind {A B : Type} (r : result A) (k : A -> result B) : result B :=
  match r with
  | Ok a => k a
  | Raise e => Raise e
  | OutOfFuel => OutOfFuel
  end.

Notation "'let!' x := r 'in' k" := (bind r (fun x => k))
  (at level 10, x name, r at level 100, k at level 200).
Notation "'let!' ' p := r 'in' k" := (bind r (fun p => k))
  (at level 10, p pattern, r at level 100, k at level 200).

(** The returned value, if the call returned. *)
Definition result_value {A : Type} (r : result A) : option A :=
  match r with
  | Ok a => Some a
  | _ => None
  end.

(** ** Floats *)

Module Float.

(** [round(x)] of a float to an [int]: nearest integer, ties to even. *)
Definition round (x : Q) : Z :=
  let f := Qfloor x in
  match (x - inject_Z f ?= 1 # 2)%Q with
  | Lt => f
  | Gt => f + 1
  | Eq => if Z.even f then f else f + 1
  end.

(** [int(x)]: truncation toward zero. *)
Definition trunc (x : Q) : Z :=
  if Qle_bool 0 x then Qfloor x else Qceiling x.

Definition pow2 (e : Z) : Q := (2 ^ e)%Q.

(** [floor (log2 x)] for [0 < x]. *)
Definition ilog2 (x : Q) : Z :=
  let n := Z.log2 (Qnum x) - Z.log2 (Zpos (Qden x)) in
  if Qle_bool (pow2 n) x then n else n - 1.

(** Rounding of an exact value to binary64: 53 significant bits,
    nearest, ties to even. *)
Definition fl (x : Q) : Q :=
  if Qeq_bool x 0 then 0%Q
  else
    let e := ilog2 (Qabs x) - 52 in
    Qred (inject_Z (round (x / pow2 e)) * pow2 e).

Definition of_int (z : Z) : Q := fl (inject_Z z).
Definition mul (x y : Q) : Q := fl (x * y).
Definition div (x y : Q) : Q := fl (x / y).

(** Correctly rounded square root of [0 <= x]. *)
Definition sqrt (x : Q) : Q :=
  if Qle_bool x 0 then 0%Q
  else
    let e := ilog2 x / 2 - 52 in
    let y := (x / pow2 (2 * e))%Q in
    let s := Z.sqrt (Qfloor y) in
    let m :=
      match (y ?= inject_Z (s * s + s) + (1 # 4))%Q with
      | Lt => s
      | Gt => s + 1
      | Eq => if Z.even s then s else s + 1
      end in
    Qred (inject_Z m * pow2 e).

(** [round(x, ndigits)]: the float nearest to the decimal that is
    nearest to [x] at [ndigits] places. *)
Definition round_ndigits (x : Q) (ndigits : Z) : Q :=
  let scale := (10 ^ ndigits)%Q in
  fl (inject_Z (round (x * scale)) / scale).

(** Unit roundoff of binary64: the relative error of [fl] is at most [u64]. *)
Definition u64 : Q := 1 # 9007199254740992.

Definition ltb (x y : Q) : bool := negb (Qle_bool y x).
Definition max (x y : Q) : Q := if ltb x y then y else x.

End Float.

(* ===================================================================== *)
(** * Configuration and images                                            *)
(* ===================================================================== *)

(** [StateTracker.get_args()]: the fields the geometry code reads. *)
Record Args : Type := mkArgs {
  aspect_bucket_alignment : Z;
  aspect_bucket_rounding : option Z
}.

(** [StateTracker.get_data_backend_config(id)], with the defaults of the
    [.get(key, default)] calls already applied. *)
Record BackendConfig : Type := mkBackendConfig {
  crop : bool;
  maximum_image_size : option Q;
  target_downsample_size : option Q;
  crop_style : string;
  crop_aspect : string
}.

(** A decoded PIL image; only its geometry is observed by the code. *)
Record Image : Type := mkImage {
  img_width : Z;
  img_height : Z;
  exif_orientation : Z
}.

Definition img_size (im : Image) : Z * Z := (img_width im, img_height im).

(** [image.convert("RGB")] keeps the geometry. *)
Definition convert_rgb (im : Image) : Image := im.

(** [PIL.ImageOps.exif_transpose]: orientations 5 to 8 swap the axes. *)
Definition exif_transpose (im : Image) : Image :=
  if (5 <=? exif_orientation im) && (exif_orientation im <=? 8)
  then mkImage (img_height im) (img_width im) 1
  else mkImage (img_width im) (img_height im) 1.

(** [image.resize((w, h), resample=LANCZOS)]. *)
Definition img_resize (im : Image) (wh : Z * Z) : Image :=
  mkImage (fst wh) (snd wh) (exif_orientation im).

(** The size-only stand-in for an image: [{"original_size": (w, h)}]. *)
Record ImageMetadata : Type := mkImageMetadata {
  original_size : Z * Z
}.

(** Truthiness of an optional number ([None] and zero are falsy). *)
Definition truthy (x : option Q) : bool :=
  match x with
  | Some q => negb (Qeq_bool q 0)
  | None => false
  end.

(* ===================================================================== *)
(** * helpers/multiaspect/image.py                                        *)
(* ===================================================================== *)

Module MultiaspectImage.

Section Geometry.

Variable args : Args.

Let multiple : Z := aspect_bucket_alignment args.

(** [_round_to_nearest_multiple(value)]; [value] is an int or a float. *)
Definition _round_to_nearest_multiple (value : Q) : result Z :=
  if multiple =? 0 then Raise ZeroDivisionError
  else
    let rounded := Float.round (Float.div value (inject_Z multiple)) * multiple in
    Ok (Z.max rounded multiple).

(** The three shapes of argument that [calculate_image_aspect_ratio]
    tells apart with [isinstance]. *)
Inductive aspect_source : Type :=
  | FromImage (im : Image)
  | FromTuple (wh : Z * Z)
  | FromFloat (x : Q).

Definition calculate_image_aspect_ratio (image : aspect_source) : result Q :=
  let to_round := default 2 (aspect_bucket_rounding args) in
  match image with
  | FromFloat x => Ok (Float.round_ndigits x to_round)
  | FromImage im =>
      if img_height im =? 0 then Raise ZeroDivisionError
      else Ok (Float.round_ndigits
                 (Float.div (inject_Z (img_width im)) (inject_Z (img_height im)))
                 to_round)
  | FromTuple (width, height) =>
      if height =? 0 then Raise ZeroDivisionError
      else Ok (Float.round_ndigits
                 (Float.div (inject_Z width) (inject_Z height)) to_round)
  end.

(** The [while min(W_adjusted, H_adjusted) < resolution] loop. *)
Fixpoint pixel_edge_loop (fuel : nat) (aspect_ratio resolution : Q)
    (W_adjusted H_adjusted : Z) : result (Z * Z) :=
  if Float.ltb (inject_Z (Z.min W_adjusted H_adjusted)) resolution then
    match fuel with
    | O => OutOfFuel
    | S fuel' =>
        let W_adjusted := W_adjusted + multiple in
        let! H_adjusted := _round_to_nearest_multiple
          (inject_Z (Float.round (Float.mul (Float.of_int W_adjusted) aspect_ratio))) in
        pixel_edge_loop fuel' aspect_ratio resolution W_adjusted H_adjusted
    end
  else Ok (W_adjusted, H_adjusted).

Definition calculate_new_size_by_pixel_edge (fuel : nat)
    (aspect_ratio resolution : Q) : result (Z * Z * Q) :=
  let! '(W_initial, H_initial) :=
    (if Float.ltb 1 aspect_ratio then
       Ok (Float.mul resolution aspect_ratio, resolution)
     else if Float.ltb aspect_ratio 1 then
       if Qeq_bool aspect_ratio 0 then Raise ZeroDivisionError
       else Ok (resolution, Float.div resolution aspect_ratio)
     else Ok (resolution, resolution)) in
  let! W_adjusted := _round_to_nearest_multiple W_initial in
  let! H_adjusted := _round_to_nearest_multiple H_initial in
  let! '(W_adjusted, H_adjusted) :=
    pixel_edge_loop fuel aspect_ratio resolution W_adjusted H_adjusted in
  let! new_aspect_ratio := calculate_image_aspect_ratio (FromTuple (W_adjusted, H_adjusted)) in
  Ok (W_adjusted, H_adjusted, new_aspect_ratio).



(** [int(round(x ** 0.5))]: a negative base gives a complex power, which
    [round] rejects. *)
Definition round_sqrt (x : Q) : result Z :=
  if Float.ltb x 0 then Raise TypeError
  else Ok (Float.round (Float.sqrt x)).

(** The [while W_adjusted * H_adjusted < total_pixels] loop. *)
Fixpoint pixel_area_loop (fuel : nat) (aspect_ratio total_pixels : Q)
    (W_adjusted H_adjusted : Z) : result (Z * Z) :=
  if Float.ltb (inject_Z (W_adjusted * H_adjusted)) total_pixels then
    match fuel with
    | O => OutOfFuel
    | S fuel' =>
        let W_adjusted := W_adjusted + multiple in
        let! H_adjusted := _round_to_nearest_multiple
          (inject_Z (Float.round (Float.div (Float.of_int W_adjusted) aspect_ratio))) in
        pixel_area_loop fuel' aspect_ratio total_pixels W_adjusted H_adjusted
    end
  else Ok (W_adjusted, H_adjusted).

Definition total_pixels_of (megapixels : Q) : Q :=
  Float.max (Float.mul megapixels 1000000) 1000000.


Definition calculate_new_size_by_pixel_area (fuel : nat)
    (aspect_ratio megapixels : Q) : result (Z * Z * Q) :=
  if Qeq_bool aspect_ratio 1 && Qeq_bool megapixels 1 then Ok (1024, 1024, 1%Q)
  else if Qeq_bool aspect_ratio 1 && Qeq_bool megapixels (3 # 4) then Ok (768, 768, 1%Q)
  else if Qeq_bool aspect_ratio 1 && Qeq_bool megapixels (1 # 2) then Ok (512, 512, 1%Q)
  else
    let total_pixels := total_pixels_of megapixels in
    let! W_initial := round_sqrt (Float.mul total_pixels aspect_ratio) in
    let! H_initial :=
      (if Qeq_bool aspect_ratio 0 then Raise ZeroDivisionError
       else round_sqrt (Float.div total_pixels aspect_ratio)) in
    let! W_adjusted := _round_to_nearest_multiple (inject_Z W_initial) in
    let! H_adjusted := _round_to_nearest_multiple (inject_Z H_initial) in
    let! '(W_adjusted, H_adjusted) :=
      pixel_area_loop fuel aspect_ratio total_pixels W_adjusted H_adjusted in
    let! new_aspect_ratio := calculate_image_aspect_ratio (FromTuple (W_adjusted, H_adjusted)) in
    Ok (W_adjusted, H_adjusted, new_aspect_ratio).

Definition is_image_too_large (image_size : Z * Z) (resolution : Q)
    (resolution_type : string) : result bool :=
  if String.eqb resolution_type "pixel" then
    Ok (Float.ltb resolution (inject_Z (fst image_size))
        || Float.ltb resolution (inject_Z (snd image_size)))
  else if String.eqb resolution_type "area" then
    let image_area := fst image_size * snd image_size in
    let target_area := Float.mul resolution 1000000 in
    Ok (Float.ltb target_area (inject_Z image_area))
  else Raise (ValueError "Unknown resolution type").

(** What [_resize_image] hands back: the resized image, the bare size
    tuple (the early return of the metadata path), the updated metadata,
    or nothing when the function runs off its end. *)
Inductive resized : Type :=
  | ResizedImage (im : Image)
  | ResizedSize (wh : Z * Z)
  | ResizedMetadata (md : ImageMetadata)
  | ResizedNone.

(** The staged reduction [while current_width > target_width * 1.5 or
    current_height > target_height * 1.5]; the result lists the
    intermediate sizes in the order they are produced. *)
Fixpoint resize_stages (fuel : nat) (target_width target_height : Z)
    (current_width current_height : Z) : result (list (Z * Z)) :=
  if Float.ltb (Float.mul (Float.of_int target_width) (3 # 2)) (inject_Z current_width)
     || Float.ltb (Float.mul (Float.of_int target_height) (3 # 2)) (inject_Z current_height)
  then
    match fuel with
    | O => OutOfFuel
    | S fuel' =>
        let intermediate_width :=
          Float.trunc (Float.mul (Float.of_int current_width) (3 # 4)) in
        let intermediate_height :=
          Float.trunc (Float.mul (Float.of_int current_height) (3 # 4)) in
        let intermediate_width := Z.max intermediate_width target_width in
        let intermediate_height := Z.max intermediate_height target_height in
        let new_image_size := (intermediate_width, intermediate_height) in
        let! later := resize_stages fuel' target_width target_height
                  intermediate_width intermediate_height in
        Ok (new_image_size :: later)
    end
  else Ok [].

Definition _resize_image (fuel : nat) (input_image : option Image)
    (target_width target_height : Z) (image_metadata : option ImageMetadata)
    : result resized :=
  let input_image := convert_rgb <$> input_image in
  let! '(current_width, current_height) :=
    match input_image, image_metadata with
    | Some im, _ => Ok (img_size im)
    | None, Some md => Ok (original_size md)
    | None, None => Raise (UnboundLocalError "current_width")
    end in
  if (target_width =? current_width) && (target_height =? current_height) then
    match input_image, image_metadata with
    | Some im, _ => Ok (ResizedImage im)
    | None, Some md => Ok (ResizedSize (original_size md))
    | None, None => Raise (UnboundLocalError "current_width")
    end
  else
    (* msg = f"Resizing image of size {input_image.size} to ..." *)
    let! _ := match input_image with
        | Some im => Ok (img_size im)
        | None => Raise AttributeError
        end in
    let! stages := resize_stages fuel target_width target_height
               current_width current_height in
    match input_image, image_metadata with
    | Some im, _ =>
        let im := foldl img_resize im stages in
        Ok (ResizedImage (img_resize im (target_width, target_height)))
    | None, Some md =>
        Ok (ResizedMetadata (mkImageMetadata (target_width, target_height)))
    | None, None => Ok ResizedNone
    end.


End Geometry.

(** ** [prepare_image] *)

Section Prepare.

Variable args : Args.

(** [StateTracker.get_data_backend_config(data_backend_id=id)]. *)
Variable backend_config : string -> BackendConfig.

(** The crop classes of [helpers.image_manipulation.cropping] are not part
    of this development: [crop_handlers style image image_metadata w h] is
    what [crop_handlers[style](image=..., image_metadata=...).crop(w, h)]
    returns, the cropped image (if there is one) and the crop coordinates. *)
Variable crop_handlers :
  string -> option Image -> option ImageMetadata -> Z -> Z ->
  option Image * (Z * Z).

Definition known_crop_style (style : string) : bool :=
  bool_decide (style ∈ ["corner"; "centre"; "center"; "random"]).

(** The local variables of [prepare_image] when it reaches its [return]. *)
Record prepare_locals : Type := mkLocals {
  pl_image : option Image;
  pl_image_metadata : option ImageMetadata;
  pl_target_width : Z;
  pl_target_height : Z;
  pl_new_aspect_ratio : Q;
  pl_crop_coordinates : Z * Z;
  pl_downsample_before_crop : bool
}.

(** Lines 43 to 61: the size of the source. *)
Definition derive_image_size (image : option Image)
    (image_metadata : option ImageMetadata) : result (option Image * (Z * Z)) :=
  match image, image_metadata with
  | Some im, _ =>
      let im := exif_transpose (convert_rgb im) in
      Ok (Some im, img_size im)
  | None, Some md => Ok (None, (fst (original_size md), snd (original_size md)))
  | None, None => Raise (UnboundLocalError "image_size")
  end.

Definition calculate_new_size (fuel : nat) (resolution_type : string)
    (aspect_ratio resolution : Q) : result (Z * Z * Q) :=
  if String.eqb resolution_type "pixel" then
    calculate_new_size_by_pixel_edge args fuel aspect_ratio resolution
  else if String.eqb resolution_type "area" then
    calculate_new_size_by_pixel_area args fuel aspect_ratio resolution
  else Raise (ValueError "Unknown resolution type").

Definition prepare_image_locals (fuel : nat) (resolution : Q)
    (image : option Image) (image_metadata : option ImageMetadata)
    (resolution_type : string) (id : string) : result prepare_locals :=
  let! '(image, image_size) := derive_image_size image image_metadata in
  let '(original_width, original_height) := image_size in
  let original_resolution := resolution in
  let original_resolution :=
    if String.eqb resolution_type "area"
    then Float.mul original_resolution 1000 else original_resolution in
  let! original_resolution := _round_to_nearest_multiple args original_resolution in
  (* Downsample before we handle, if necessary. *)
  let cfg := backend_config id in
  let! '(resolution, downsample_before_crop) :=
    (if crop cfg && truthy (maximum_image_size cfg)
        && truthy (target_downsample_size cfg)
     then
       let! too_large := is_image_too_large image_size
                     (default 0%Q (maximum_image_size cfg)) resolution_type in
       if too_large : bool
       then Ok (default 0%Q (target_downsample_size cfg), true)
       else Ok (resolution, false)
     else Ok (resolution, false)) in
  (* Calculate new size *)
  let! original_aspect_ratio :=
    calculate_image_aspect_ratio args (FromTuple (original_width, original_height)) in
  let! '(target_width, target_height, new_aspect_ratio) :=
    calculate_new_size fuel resolution_type original_aspect_ratio resolution in
  let! _ := (if String.eqb resolution_type "area"
       then _round_to_nearest_multiple args (Float.mul resolution 1000)
       else Ok 0) in
  if crop cfg then
    if negb (known_crop_style (crop_style cfg))
    then Raise (ValueError "Unknown crop style")
    else
      let crop_handler := crop_handlers (crop_style cfg) image image_metadata in
      let! '(image, image_metadata, target) :=
        (if downsample_before_crop then
           (* logger.debug(f"... image size: {image.size} ...") *)
           let! _ := match image with
                     | Some im => Ok (img_size im)
                     | None => Raise AttributeError
                     end in
           let! '(image, image_metadata) :=
             match image, image_metadata with
             | Some im, _ =>
                 let! resized := _resize_image fuel (Some im)
                                   target_width target_height None in
                 Ok (match resized with
                     | ResizedImage im' => Some im'
                     | _ => Some im
                     end, image_metadata)
             | None, Some md =>
                 let! resized := _resize_image fuel None
                                   target_width target_height (Some md) in
                 Ok (None, match resized with
                           | ResizedMetadata md' => Some md'
                           | ResizedSize wh => Some (mkImageMetadata wh)
                           | _ => Some md
                           end)
             | None, None => Ok (None, None)
             end in
           let! target :=
             (if String.eqb resolution_type "area" then
                (* Convert original_resolution back from eg. 1024 pixels to 1.0 mp *)
                let original_megapixel_resolution :=
                  Float.div (Float.of_int original_resolution) 1000 in
                calculate_new_size_by_pixel_area args fuel
                  original_aspect_ratio original_megapixel_resolution
              else if String.eqb resolution_type "pixel" then
                calculate_new_size_by_pixel_edge args fuel
                  original_aspect_ratio (inject_Z original_resolution)
              else Ok (target_width, target_height, new_aspect_ratio)) in
           Ok (image, image_metadata, target)
         else Ok (image, image_metadata,
                  (target_width, target_height, new_aspect_ratio))) in
      let '(target_width, target_height, new_aspect_ratio) := target in
      let '(crop_width, crop_height) :=
        if String.eqb (crop_aspect cfg) "square"
        then (original_resolution, original_resolution)
        else (target_width, target_height) in
      let crop_result := crop_handler crop_width crop_height in
      let image :=
        match image with
        | Some _ => fst crop_result
        | None => None
        end in
      Ok (mkLocals image image_metadata target_width target_height
            new_aspect_ratio (snd crop_result) downsample_before_crop)
  else
    (* Resize unconditionally if cropping is not enabled *)
    let! image :=
      match image with
      | Some im =>
          let! resized := _resize_image fuel (Some im)
                            target_width target_height None in
          match resized with
          | ResizedImage im' => Ok (Some im')
          | _ => Ok (Some im)
          end
      | None => Ok None
      end in
    Ok (mkLocals image image_metadata target_width target_height
          new_aspect_ratio (0, 0) downsample_before_crop).

(** The first component of the returned tuple. *)
Inductive prepared : Type :=
  | PreparedImage (im : Image)
  | PreparedSize (wh : Z * Z).

Definition prepare_image (fuel : nat) (resolution : Q)
    (image : option Image) (image_metadata : option ImageMetadata)
    (resolution_type : string) (id : string) : result (prepared * (Z * Z) * Q) :=
  let! l := prepare_image_locals fuel resolution image image_metadata resolution_type id in
  match pl_image l with
  | Some im => Ok (PreparedImage im, pl_crop_coordinates l, pl_new_aspect_ratio l)
  | None =>
      Ok (PreparedSize (pl_target_width l, pl_target_height l),
          pl_crop_coordinates l, pl_new_aspect_ratio l)
  end.

End Prepare.

End MultiaspectImage.

(* ===================================================================== *)
(** * helpers/legacy/dreambooth_dataset.py                                *)
(* ===================================================================== *)

Inductive log_level : Type := DEBUG | INFO | WARNING | ERROR.

(** One call of a [logger] method, with its text or the exception it
    was handed. *)
Inductive log_record : Type :=
  | LogText (level : log_level) (msg : string)
  | LogException (level : log_level) (e : exn).

#[local] Set Warnings "-register-all".

(** A value read by [json.load] or written by [json.dump]. *)
Inductive json : Type :=
  | JNull
  | JBool (b : bool)
  | JNum (z : Z)
  | JStr (s : string)
  | JArr (items : list json)
  | JObj (members : list (string * json)).

(** [str(x)] of a float [x] that is the closest float to a decimal with
    two places (as [round(_, 2)] returns): [repr] prints the shortest
    decimal that reads back as [x], which is that decimal.  Exponent
    notation (ratios from 1e16 on) is not covered. *)
Definition str_float_2dp (x : Q) : string :=
  let digits (c : Z) : string :=
    pretty (c / 100) +:+ "." +:+
    (if c mod 100 =? 0 then "0"
     else if c mod 10 =? 0 then pretty (c mod 100 / 10)
     else pretty (c mod 100 / 10) +:+ pretty (c mod 10)) in
  let c := Float.round (x * 100) in
  if c <? 0 then "-" +:+ digits (- c) else digits c.

(** [numpy.array_split(files, sections)]: the first [len mod sections]
    shards get one element more than the others. *)
Fixpoint split_sizes {A : Type} (l : list A) (sizes : list nat) : list (list A) :=
  match sizes with
  | [] => []
  | k :: sizes' => take k l :: split_sizes (drop k l) sizes'
  end.

Definition array_split {A : Type} (l : list A) (sections : nat) : list (list A) :=
  let n := length l in
  let q := (n / sections)%nat in
  let r := (n mod sections)%nat in
  split_sizes l (replicate r (S q) ++ replicate (sections - r) q).

(** The orders in which a single reader can receive what several
    writers put on one queue: each writer's messages stay in order. *)
Inductive interleaving {A : Type} : list (list A) -> list A -> Prop :=
  | interleaving_done (queues : list (list A)) :
      Forall (fun q => q = []) queues -> interleaving queues []
  | interleaving_next (queues : list (list A)) (i : nat) (x : A)
        (q rest : list A) :
      queues !! i = Some (x :: q) ->
      interleaving (<[i := q]> queues) rest ->
      interleaving queues (x :: rest).

Module DreamBoothDataset.

(** An element of [self.instance_images_path]: [__init__] fills the list
    with [Path] objects, [compute_aspect_ratio_bucket_indices] appends
    [str]s; a [str] never equals a [Path]. *)
Inductive path_entry : Type :=
  | PathObj (p : string)
  | StrObj (p : string).

Global Instance path_entry_eq_dec : EqDecision path_entry.
Proof. solve_decision. Defined.

(** The fields of the dataset object that the bucket code touches. *)
Record Dataset : Type := mkDataset {
  aspect_ratio_bucket_indices : gmap string (list string);
  instance_images_path : list path_entry;
  num_instance_images : nat;
  _length : nat
}.

Section Buckets.

(** [Image.open(path)]: the decoded image, or the exception raised for
    an unreadable or corrupt file. *)
Variable open_image : string -> Image + exn.

(** The [json] module is not part of this development. *)
Variable json_dump : json -> string.
Variable json_load : string -> result json.

(** The part of the [try] block of [_process_image] that can raise. *)
Definition measure_aspect_ratio (image_path_str : string) : result Q :=
  match open_image image_path_str with
  | inr e => Raise e
  | inl image =>
      let image := exif_transpose image in
      if img_height image =? 0 then Raise ZeroDivisionError
      else Ok (Float.round_ndigits
                 (Float.div (inject_Z (img_width image))
                            (inject_Z (img_height image))) 2)
  end.

(** [try: body except Exception as e: handler(e)]. *)
Definition try_except {A : Type} (body : result A) (handler : exn -> result A)
    : result A :=
  match body with
  | Raise e => handler e
  | other => other
  end.

(** [_process_image]: the mapping it returns and what it logs.  The
    mapping is only written after the last statement that can raise. *)
Definition _process_image (image_path_str : string)
    (aspect_ratio_bucket_indices : gmap string (list string))
    : result (gmap string (list string) * list log_record) :=
  try_except
    (let! aspect_ratio := measure_aspect_ratio image_path_str in
     let key := str_float_2dp aspect_ratio in
     (* Create a new bucket if it doesn't exist *)
     let indices :=
       if decide (key ∈ dom aspect_ratio_bucket_indices)
       then aspect_ratio_bucket_indices
       else <[key := []]> aspect_ratio_bucket_indices in
     Ok (<[key := (indices !!! key) ++ [image_path_str]]> indices, []))
    (fun e =>
       Ok (aspect_ratio_bucket_indices,
           [LogText ERROR ("Error processing image " +:+ image_path_str +:+ ".");
            LogException ERROR e])).

(** What one worker process sends: the partial mappings put on
    [aspect_ratio_bucket_indices_queue], the increments put on
    [tqdm_queue], and its log.  [own_indices] is the worker's copy of
    [self.aspect_ratio_bucket_indices]; each mapping is sent as it
    stands when it is put on the queue. *)
Fixpoint _bucket_worker (files : list string) (existing_files_set : gset string)
    (own_indices : gmap string (list string))
    : result (list (gmap string (list string)) * list Z * list log_record) :=
  match files with
  | [] => Ok ([], [], [])
  | file :: files' =>
      if decide (file ∈ existing_files_set) then
        let! '(sent, ticks, logs) :=
          _bucket_worker files' existing_files_set own_indices in
        Ok (sent, 1 :: ticks, logs)
      else
        let! '(own_indices, errors) := _process_image file own_indices in
        let! '(sent, ticks, logs) :=
          _bucket_worker files' existing_files_set own_indices in
        Ok (own_indices :: sent, 1 :: ticks, errors ++ logs)
  end.

(** The union of all the file lists of a mapping
    ([existing_files_set] of the source). *)
Definition files_of (indices : gmap string (list string)) : gset string :=
  list_to_set (concat (map_to_list indices).*2).

(** [d.update(other)]: every key of [other] replaces the entry of [d]. *)
Definition dict_update (d other : gmap string (list string))
    : gmap string (list string) :=
  other ∪ d.

Definition json_of_indices (indices : gmap string (list string)) : json :=
  JObj ((fun kv => (kv.1, JArr (JStr <$> kv.2))) <$> map_to_list indices).

(** The partial mappings of the eight workers, one queue per worker. *)
Definition worker_mappings (self : Dataset) (all_image_files : list string)
    : result (list (list (gmap string (list string)))) :=
  let files_split := array_split all_image_files 8 in
  let existing_files_set := files_of (aspect_ratio_bucket_indices self) in
  foldr (fun files acc =>
           let! '(sent, _, _) :=
             _bucket_worker files existing_files_set
               (aspect_ratio_bucket_indices self) in
           let! rest := acc in
           Ok (sent :: rest))
        (Ok []) files_split.

(** [compute_aspect_ratio_bucket_indices] once the partial mappings have
    arrived in the order [received]: the returned mapping, the dataset
    afterwards and the text written to the cache file. *)
Definition compute_aspect_ratio_bucket_indices (self : Dataset)
    (all_image_files : list string)
    (received : list (gmap string (list string)))
    : gmap string (list string) * Dataset * string :=
  (* Step 1: Initialization Check *)
  let aliased := bool_decide (aspect_ratio_bucket_indices self ≠ ∅) in
  let aspect_ratio_bucket_indices' :=
    if aliased then aspect_ratio_bucket_indices self else ∅ in
  (* Update progress bar and gather results in main process *)
  let aspect_ratio_bucket_indices' :=
    foldl dict_update aspect_ratio_bucket_indices' received in
  (* Step 3: Updating the Cache *)
  let new_file_paths :=
    filter (fun file => StrObj file ∉ instance_images_path self) all_image_files in
  let instance_images_path' :=
    instance_images_path self ++ (StrObj <$> new_file_paths) in
  let self' :=
    mkDataset
      (if aliased then aspect_ratio_bucket_indices'
       else aspect_ratio_bucket_indices self)
      instance_images_path'
      (length instance_images_path')
      (length all_image_files) in
  (aspect_ratio_bucket_indices', self', json_dump (json_of_indices aspect_ratio_bucket_indices')).

(** A complete bulk run: the workers send their mappings, the coordinator
    receives them in some order. *)
Definition bulk_run (self : Dataset) (all_image_files : list string)
    (outcome : gmap string (list string) * Dataset * string) : Prop :=
  exists queues received,
    worker_mappings self all_image_files = Ok queues /\
    interleaving queues received /\
    outcome = compute_aspect_ratio_bucket_indices self all_image_files received.

(** [self.aspect_ratio_bucket_indices = self.assign_to_buckets()]. *)
Definition store_indices (outcome : gmap string (list string) * Dataset * string)
    : Dataset :=
  let '(indices, self, _) := outcome in
  mkDataset indices (instance_images_path self)
    (num_instance_images self) (_length self).

(** [load_aspect_ratio_bucket_indices(cache_file)]; [cache_file] is the
    text of the file, or [None] when there is no such file. *)
Definition load_aspect_ratio_bucket_indices (cache_file : option string)
    : list log_record * result json :=
  let log1 := [LogText INFO "Loading aspect ratio bucket indices from cache file."] in
  match cache_file with
  | None => (log1, Raise FileNotFoundError)
  | Some f =>
      let '(log2, aspect_ratio_bucket_indices) :=
        match json_load f with
        | Ok v => ([], v)
        | _ =>
            ([LogText WARNING
                "Could not load aspect ratio bucket indices from cache file. Creating a new one!"],
             JObj [])
        end in
      (log1 ++ log2 ++ [LogText INFO "Loading of aspect bucket indexes completed."],
       Ok aspect_ratio_bucket_indices)
  end.

(** Reading a loaded value back as a bucket mapping. *)
Definition strings_of_json (v : json) : option (list string) :=
  match v with
  | JArr items => mapM (fun x => match x with JStr s => Some s | _ => None end) items
  | _ => None
  end.

Definition indices_of_json (v : json) : option (gmap string (list string)) :=
  match v with
  | JObj members =>
      list_to_map <$> mapM (fun kv => pair kv.1 <$> strings_of_json kv.2) members
  | _ => None
  end.

End Buckets.

End DreamBoothDataset.

(* ===================================================================== *)
(** * A reference [json] codec                                            *)
(* ===================================================================== *)

(** A printer and a reader for the JSON subset that the cache uses
    (no fractions or exponents, no unicode escapes).  The bucket code
    is stated over any codec; this one serves to run it. *)
Module MiniJson.

Definition quote : ascii := ascii_of_nat 34.
Definition backslash : ascii := ascii_of_nat 92.
Definition newline : ascii := ascii_of_nat 10.
Definition tab : ascii := ascii_of_nat 9.
Definition carriage_return : ascii := ascii_of_nat 13.

Fixpoint escape (s : string) : string :=
  match s with
  | EmptyString => EmptyString
  | String c s' =>
      if Ascii.eqb c quote then String backslash (String quote (escape s'))
      else if Ascii.eqb c backslash then String backslash (String backslash (escape s'))
      else if Ascii.eqb c newline then String backslash (String "n" (escape s'))
      else if Ascii.eqb c tab then String backslash (String "t" (escape s'))
      else if Ascii.eqb c carriage_return then String backslash (String "r" (escape s'))
      else String c (escape s')
  end.

Definition dump_string (s : string) : string :=
  String quote (escape s +:+ String quote EmptyString).

Fixpoint dump (v : json) : string :=
  match v with
  | JNull => "null"
  | JBool true => "true"
  | JBool false => "false"
  | JNum z => pretty z
  | JStr s => dump_string s
  | JArr items =>
      "[" +:+
      (fix items_text (l : list json) : string :=
         match l with
         | [] => ""
         | x :: l' =>
             match l' with
             | [] => dump x
             | _ => dump x +:+ ", " +:+ items_text l'
             end
         end) items +:+ "]"
  | JObj members =>
      "{" +:+
      (fix members_text (l : list (string * json)) : string :=
         match l with
         | [] => ""
         | (k, x) :: l' =>
             match l' with
             | [] => dump_string k +:+ ": " +:+ dump x
             | _ => dump_string k +:+ ": " +:+ dump x +:+ ", " +:+ members_text l'
             end
         end) members +:+ "}"
  end.

Definition is_space (c : ascii) : bool :=
  Ascii.eqb c " " || Ascii.eqb c newline || Ascii.eqb c tab
  || Ascii.eqb c carriage_return.

Fixpoint skip_ws (s : string) : string :=
  match s with
  | String c s' => if is_space c then skip_ws s' else s
  | EmptyString => s
  end.

(** The characters of a string literal after its opening quote. *)
Fixpoint read_string (s : string) : option (string * string) :=
  match s with
  | EmptyString => None
  | String c s' =>
      if Ascii.eqb c quote then Some (EmptyString, s')
      else if Ascii.eqb c backslash then
        match s' with
        | String e s'' =>
            let plain : option ascii :=
              if Ascii.eqb e quote then Some quote
              else if Ascii.eqb e backslash then Some backslash
              else if Ascii.eqb e "/" then Some "/"%char
              else if Ascii.eqb e "n" then Some newline
              else if Ascii.eqb e "t" then Some tab
              else if Ascii.eqb e "r" then Some carriage_return
              else None in
            match plain, read_string s'' with
            | Some p, Some (text, rest) => Some (String p text, rest)
            | _, _ => None
            end
        | EmptyString => None
        end
      else
        match read_string s' with
        | Some (text, rest) => Some (String c text, rest)
        | None => None
        end
  end.

Definition digit_of (c : ascii) : option Z :=
  let n := Z.of_nat (nat_of_ascii c) in
  if (48 <=? n) && (n <=? 57) then Some (n - 48) else None.

Fixpoint read_digits (s : string) (acc : Z) : Z * string :=
  match s with
  | String c s' =>
      match digit_of c with
      | Some d => read_digits s' (10 * acc + d)
      | None => (acc, s)
      end
  | EmptyString => (acc, s)
  end.

Fixpoint strip_prefix (p s : string) : option string :=
  match p, s with
  | EmptyString, _ => Some s
  | String a p', String b s' => if Ascii.eqb a b then strip_prefix p' s' else None
  | String _ _, EmptyString => None
  end.

Definition read_literal (s : string) : option (json * string) :=
  match strip_prefix "null" s, strip_prefix "true" s, strip_prefix "false" s with
  | Some rest, _, _ => Some (JNull, rest)
  | _, Some rest, _ => Some (JBool true, rest)
  | _, _, Some rest => Some (JBool false, rest)
  | _, _, _ =>
      match s with
      | String c s' =>
          if Ascii.eqb c "-" then
            match s' with
            | String d _ =>
                match digit_of d with
                | Some _ => let '(n, rest) := read_digits s' 0 in Some (JNum (- n), rest)
                | None => None
                end
            | EmptyString => None
            end
          else
            match digit_of c with
            | Some _ => let '(n, rest) := read_digits s 0 in Some (JNum n, rest)
            | None => None
            end
      | EmptyString => None
      end
  end.

Fixpoint read_value (fuel : nat) (s : string) : option (json * string) :=
  match fuel with
  | O => None
  | S fuel' =>
      match skip_ws s with
      | EmptyString => None
      | String c rest =>
          if Ascii.eqb c quote then
            match read_string rest with
            | Some (text, rest') => Some (JStr text, rest')
            | None => None
            end
          else if Ascii.eqb c "[" then
            match skip_ws rest with
            | String "]" rest' => Some (JArr [], rest')
            | _ =>
                match read_items fuel' rest with
                | Some (items, rest') => Some (JArr items, rest')
                | None => None
                end
            end
          else if Ascii.eqb c "{" then
            match skip_ws rest with
            | String "}" rest' => Some (JObj [], rest')
            | _ =>
                match read_members fuel' rest with
                | Some (members, rest') => Some (JObj members, rest')
                | None => None
                end
            end
          else read_literal (String c rest)
      end
  end
with read_items (fuel : nat) (s : string) : option (list json * string) :=
  match fuel with
  | O => None
  | S fuel' =>
      match read_value fuel' s with
      | Some (v, rest) =>
          match skip_ws rest with
          | String "," rest' =>
              match read_items fuel' rest' with
              | Some (vs, rest'') => Some (v :: vs, rest'')
              | None => None
              end
          | String "]" rest' => Some ([v], rest')
          | _ => None
          end
      | None => None
      end
  end
with read_members (fuel : nat) (s : string) : option (list (string * json) * string) :=
  match fuel with
  | O => None
  | S fuel' =>
      match skip_ws s with
      | String c rest =>
          if Ascii.eqb c quote then
            match read_string rest with
            | Some (key, rest1) =>
                match skip_ws rest1 with
                | String ":" rest2 =>
                    match read_value fuel' rest2 with
                    | Some (v, rest3) =>
                        match skip_ws rest3 with
                        | String "," rest4 =>
                            match read_members fuel' rest4 with
                            | Some (ms, rest5) => Some ((key, v) :: ms, rest5)
                            | None => None
                            end
                        | String "}" rest4 => Some ([(key, v)], rest4)
                        | _ => None
                        end
                    | None => None
                    end
                | _ => None
                end
            | None => None
            end
          else None
      | EmptyString => None
      end
  end.

Definition load (s : string) : result json :=
  match read_value (2 * String.length s + 2) s with
  | Some (v, rest) =>
      match skip_ws rest with
      | EmptyString => Ok v
      | _ => Raise JSONDecodeError
      end
  | None => Raise JSONDecodeError
  end.

End MiniJson.

(* ===================================================================== *)
(** * Concrete inputs                                                     *)
(* ===================================================================== *)

Module Samples.

(** The default alignment of 64 pixels and two decimals of rounding. *)
Definition args64 : Args := mkArgs 64 None.

(** A data backend that crops to the native aspect and pre-shrinks
    sources above 4 megapixels to 2 megapixels. *)
Definition area_backend (id : string) : BackendConfig :=
  mkBackendConfig true (Some 4%Q) (Some 2%Q) "center" "native".

(** The same backend without the oversized-source policy. *)
Definition area_backend_unbounded (id : string) : BackendConfig :=
  mkBackendConfig true None None "center" "native".

(** A data backend that crops to the native aspect and pre-shrinks
    sources with an edge above 2048 pixels to 1024 pixels. *)
Definition pixel_backend (id : string) : BackendConfig :=
  mkBackendConfig true (Some 2048%Q) (Some 1024%Q) "center" "native".

(** A crop that keeps the top left corner. *)
Definition corner_crop (style : string) (image : option Image)
    (image_metadata : option ImageMetadata) (w h : Z)
    : option Image * (Z * Z) :=
  ((fun im => mkImage w h (exif_orientation im)) <$> image, (0, 0)).

(** A 3000 by 2000 photograph and a 4000 by 2000 panorama. *)
Definition photo_3000x2000 : Image := mkImage 3000 2000 1.
Definition panorama_4000x2000 : Image := mkImage 4000 2000 1.

(** A directory where [bad.png] is corrupt and every other file is a
    768 by 512 image. *)
Definition open_one_corrupt (p : string) : Image + exn :=
  if String.eqb p "bad.png"
  then inr (DecodeError "cannot identify image file")
  else inl (mkImage 768 512 1).

(** A directory of square 512 by 512 images. *)
Definition open_square (p : string) : Image + exn :=
  inl (mkImage 512 512 1).

(** A dataset object before its first bucket computation. *)
Definition fresh_dataset : DreamBoothDataset.Dataset :=
  DreamBoothDataset.mkDataset ∅
    [DreamBoothDataset.PathObj "a.png"; DreamBoothDataset.PathObj "b.png"] 2 2.

Definition two_files : list string := ["a.png"; "b.png"].

(** Two dataset objects with the same bucket mapping and different
    known-file lists. *)
Definition dataset_knowing_one : DreamBoothDataset.Dataset :=
  DreamBoothDataset.mkDataset {[ "1.0" := ["a.png"] ]}
    [DreamBoothDataset.StrObj "a.png"] 1 1.

Definition dataset_knowing_two : DreamBoothDataset.Dataset :=
  DreamBoothDataset.mkDataset {[ "1.0" := ["a.png"] ]}
    [DreamBoothDataset.StrObj "a.png"; DreamBoothDataset.StrObj "old.png"] 2 1.

End Samples.

(* ===================================================================== *)
(** * Further parts of the two modules                                    *)
(* ===================================================================== *)

Module Policy.

(** Lines 72 to 94 of [prepare_image] on their own: the resolution that
    the first size computation uses and the [downsample_before_crop]
    flag, as [prepare_image_locals] computes them. *)
Definition oversized_policy (cfg : BackendConfig) (image_size : Z * Z)
    (resolution : Q) (resolution_type : string) : result (Q * bool) :=
  if crop cfg && truthy (maximum_image_size cfg)
     && truthy (target_downsample_size cfg)
  then
    let! too_large := MultiaspectImage.is_image_too_large image_size
                        (default 0%Q (maximum_image_size cfg)) resolution_type in
    if too_large : bool
    then Ok (default 0%Q (target_downsample_size cfg), true)
    else Ok (resolution, false)
  else Ok (resolution, false).

End Policy.

Module LegacyDataset.

Import DreamBoothDataset.

(** [later] keeps every bucket of [earlier] with its files in place, and
    may have more files behind them and more buckets. *)
Definition extends_mapping (earlier later : gmap string (list string)) : Prop :=
  forall key files, earlier !! key = Some files ->
    exists more, later !! key = Some (files ++ more).

Section SingleFile.

Variable open_image : string -> Image + exn.

(** [_add_file_to_cache(file_path)]: the dataset afterwards and what is
    logged.  The lock is created for this one call and guards nothing. *)
Definition _add_file_to_cache (self : Dataset) (file_path : string)
    : result (Dataset * list log_record) :=
  try_except
    (let! aspect_ratio := measure_aspect_ratio open_image file_path in
     let key := str_float_2dp aspect_ratio in
     (* Create a new bucket if it doesn't exist *)
     let indices :=
       if decide (key ∈ dom (aspect_ratio_bucket_indices self))
       then aspect_ratio_bucket_indices self
       else <[key := []]> (aspect_ratio_bucket_indices self) in
     Ok (mkDataset (<[key := (indices !!! key) ++ [file_path]]> indices)
           (instance_images_path self) (num_instance_images self)
           (_length self), []))
    (fun e =>
       Ok (self,
           [LogText ERROR ("Error processing image " +:+ file_path +:+ ".");
            LogException ERROR e])).

(** What the eight workers put on [tqdm_queue], one list per worker. *)
Definition worker_ticks (self : Dataset) (all_image_files : list string)
    : result (list (list Z)) :=
  let files_split := array_split all_image_files 8 in
  let existing_files_set := files_of (aspect_ratio_bucket_indices self) in
  foldr (fun files acc =>
           let! '(_, ticks, _) :=
             _bucket_worker open_image files existing_files_set
               (aspect_ratio_bucket_indices self) in
           let! rest := acc in
           Ok (ticks :: rest))
        (Ok []) files_split.

End SingleFile.

(** ** Construction and length *)

Section Construction.

Variable json_dump : json -> string.

(** [__init__], as far as the bucket fields go.  [root_listing] is what
    [Path(instance_data_root).iterdir()] lists, or [None] when the root
    does not exist; [all_image_files] and [received] are the files that
    the enumeration finds and the partial mappings in the order of
    arrival, as in [compute_aspect_ratio_bucket_indices]. *)
Definition __init__ (root_listing : option (list string))
    (all_image_files : list string)
    (received : list (gmap string (list string))) : result Dataset :=
  match root_listing with
  | None => Raise (ValueError "Instance images root doesn't exists.")
  | Some entries =>
      let self :=
        mkDataset ∅ (PathObj <$> entries) (length (PathObj <$> entries)) 0 in
      (* self.aspect_ratio_bucket_indices = self.assign_to_buckets() *)
      let self :=
        store_indices
          (compute_aspect_ratio_bucket_indices json_dump self
             all_image_files received) in
      (* self._length = self.num_instance_images *)
      Ok (mkDataset (aspect_ratio_bucket_indices self)
            (instance_images_path self) (num_instance_images self)
            (num_instance_images self))
  end.

Definition __len__ (self : Dataset) : nat := _length self.

End Construction.

(** ** Caption dropout *)

(** [caption_loop_interval_bump()] on the counter. *)
Definition caption_loop_interval_bump (caption_loop_count : Z) : Z :=
  let caption_loop_count := caption_loop_count + 1 in
  if 100 <? caption_loop_count then 0 else caption_loop_count.

(** The caption-dropout step of [__getitem__] while training: whether the
    caption is replaced by the empty string, and the counter afterwards. *)
Definition caption_dropout (caption_dropout_interval caption_loop_count : Z)
    : bool * Z :=
  if 0 <? caption_dropout_interval then
    (caption_loop_count mod caption_dropout_interval =? 0,
     caption_loop_interval_bump caption_loop_count)
  else (false, caption_loop_count).

(** The dropout decisions of [n] successive calls of [__getitem__] that
    reach the dropout step. *)
Fixpoint dropout_schedule (n : nat)
    (caption_dropout_interval caption_loop_count : Z) : list bool :=
  match n with
  | O => []
  | S n' =>
      let '(dropped, caption_loop_count) :=
        caption_dropout caption_dropout_interval caption_loop_count in
      dropped :: dropout_schedule n' caption_dropout_interval caption_loop_count
  end.

(** [_resize_for_condition_image(input_image, resolution)]: the size that
    is handed to [input_image.resize]. *)
Definition _resize_for_condition_image (input_image : Image) (resolution : Z)
    : result (Z * Z) :=
  let input_image := convert_rgb input_image in
  let '(W, H) := img_size input_image in
  if H =? 0 then Raise ZeroDivisionError
  else
    let aspect_ratio :=
      Float.round_ndigits (Float.div (inject_Z W) (inject_Z H)) 2 in
    let! '(W, H) :=
      (if W <? H then
         if Qeq_bool aspect_ratio 0 then Raise ZeroDivisionError
         else Ok (resolution,
                  Float.trunc (Float.div (Float.of_int resolution) aspect_ratio))
       else if H <? W then
         Ok (Float.trunc (Float.mul (Float.of_int resolution) aspect_ratio),
             resolution)
       else Ok (W, H)) in
    let '(W, H) := if W =? H then (resolution, resolution) else (W, H) in
    Ok (W, H).

(** ** Enumerating the image files *)

(** One entry of a directory: a regular file, a directory, or a symbolic
    link with the path that [os.readlink] returns for it. *)
Inductive entry_kind : Type :=
  | RegularFile
  | Directory
  | Symlink (target : string).

Record dir_entry : Type := mkEntry {
  entry_name : string;
  kind : entry_kind
}.

(** The glob pattern ["*.[jJpP][pPnN][gG]"] on a file name: any text,
    then a dot and one character from each of the three classes. *)
Definition matches_pattern (name : string) : bool :=
  match reverse (list_ascii_of_string name) with
  | c3 :: c2 :: c1 :: dot :: _ =>
      Ascii.eqb dot "."
      && bool_decide (c1 ∈ ["j"; "J"; "p"; "P"]%char)
      && bool_decide (c2 ∈ ["p"; "P"; "n"; "N"]%char)
      && bool_decide (c3 ∈ ["g"; "G"]%char)
  | _ => false
  end.

Definition join_path (path name : string) : string :=
  path +:+ "/" +:+ name.

Section Walk.

(** [listing path] is the content of [path] in the order in which the
    operating system lists it, or [None] when [path] does not lead to a
    directory. *)
Variable listing : string -> option (list dir_entry).

(** [rglob_follow_symlinks(path, pattern)] with the pattern of the two
    call sites, collected into a list.  The fuel bounds the depth of the
    recursion. *)
Fixpoint rglob_follow_symlinks (fuel : nat) (path : string)
    : result (list string) :=
  match fuel with
  | O => OutOfFuel
  | S fuel' =>
      match listing path with
      | None => Raise FileNotFoundError
      | Some entries =>
          let matched :=
            join_path path <$>
              filter (fun name => matches_pattern name = true)
                     (entry_name <$> entries) in
          let! below :=
            foldr (fun p acc =>
                     let! found :=
                       match kind p with
                       | Directory =>
                           rglob_follow_symlinks fuel'
                             (join_path path (entry_name p))
                       | Symlink real_path =>
                           if decide (is_Some (listing real_path))
                           then rglob_follow_symlinks fuel' real_path
                           else Ok []
                       | RegularFile => Ok []
                       end in
                     let! rest := acc in
                     Ok (found ++ rest))
                  (Ok []) entries in
          Ok (matched ++ below)
      end
  end.

(** The directories that the enumeration enters from [root]: [root]
    itself, the real subdirectories of a directory it enters, and the
    targets of the symbolic links there that lead to a directory. *)
Inductive reachable (root : string) : string -> Prop :=
  | reachable_root : reachable root root
  | reachable_directory (dir : string) (entries : list dir_entry)
        (p : dir_entry) :
      reachable root dir -> listing dir = Some entries -> p ∈ entries ->
      kind p = Directory ->
      reachable root (join_path dir (entry_name p))
  | reachable_symlink (dir : string) (entries : list dir_entry)
        (p : dir_entry) (real_path : string) :
      reachable root dir -> listing dir = Some entries -> p ∈ entries ->
      kind p = Symlink real_path -> is_Some (listing real_path) ->
      reachable root real_path.

(** [path] is a directory, and no chain of subdirectories and links to
    directories that starts there is longer than [depth]. *)
Fixpoint depth_within (depth : nat) (path : string) : Prop :=
  exists entries,
    listing path = Some entries /\
    Forall (fun p =>
              match kind p, depth with
              | RegularFile, _ => True
              | Directory, O => False
              | Directory, S depth' =>
                  depth_within depth' (join_path path (entry_name p))
              | Symlink real_path, O => ~ is_Some (listing real_path)
              | Symlink real_path, S depth' =>
                  is_Some (listing real_path) -> depth_within depth' real_path
              end) entries.

End Walk.

End LegacyDataset.

(* ===================================================================== *)
(** * Further sample data                                                 *)
(* ===================================================================== *)

Module MoreSamples.

Import LegacyDataset.

(** A data backend that does not crop. *)
Definition plain_backend (id : string) : BackendConfig :=
  mkBackendConfig false None None "random" "square".

(** A data backend that asks for a crop style without a handler. *)
Definition unknown_style_backend (id : string) : BackendConfig :=
  mkBackendConfig true None None "top-left" "square".

(** The size of the 3000 by 2000 photograph without its pixels. *)
Definition size_3000x2000 : ImageMetadata := mkImageMetadata (3000, 2000).

(** What [prepare_image] holds at its [return] for the photograph and for
    its size, at 1024 pixels with a centre crop to the native aspect. *)
Definition locals_with_pixels : MultiaspectImage.prepare_locals :=
  MultiaspectImage.mkLocals (Some (mkImage 1536 1024 1)) None
    1536 1024 (3 # 2) (0, 0) false.

Definition locals_with_size : MultiaspectImage.prepare_locals :=
  MultiaspectImage.mkLocals None (Some size_3000x2000)
    1536 1024 (3 # 2) (0, 0) false.

(** The same for the photograph under the oversized-source policy. *)
Definition locals_downsampled : MultiaspectImage.prepare_locals :=
  MultiaspectImage.mkLocals (Some (mkImage 1536 1024 1)) None
    1536 1024 (3 # 2) (0, 0) true.

(** A strip of 5 by 1005 pixels. *)
Definition strip_5x1005 : Image := mkImage 5 1005 1.

(** A directory [data] with an image, a text file, a subdirectory and a
    link to a directory outside of it. *)
Definition sample_tree (path : string) : option (list dir_entry) :=
  if String.eqb path "data" then
    Some [mkEntry "a.png" RegularFile; mkEntry "notes.txt" RegularFile;
          mkEntry "sub" Directory; mkEntry "link" (Symlink "other")]
  else if String.eqb path "data/sub" then
    Some [mkEntry "b.JPG" RegularFile; mkEntry "c.jpeg" RegularFile]
  else if String.eqb path "other" then
    Some [mkEntry "d.png" RegularFile]
  else None.

(** A directory [data] that holds a link to itself. *)
Definition looping_tree (path : string) : option (list dir_entry) :=
  if String.eqb path "data" then
    Some [mkEntry "a.png" RegularFile; mkEntry "self" (Symlink "data")]
  else None.

End MoreSamples.

(* ===================================================================== *)
(** * Facts about the float model                                         *)
(* ===================================================================== *)

Section FloatFacts.

Local Open Scope Q_scope.

Lemma round_bounds (x : Q) :
  x - (1 # 2) <= inject_Z (Float.round x) <= x + (1 # 2).
Proof.
  unfold Float.round.
  pose proof (Qfloor_le x) as Hlo.
  pose proof (Qlt_floor x) as Hhi.
  rewrite inject_Z_plus in Hhi. change (inject_Z 1) with 1 in Hhi.
  destruct (Qcompare_spec (x - inject_Z (Qfloor x)) (1 # 2)) as [He|Hl|Hg];
    [destruct (Z.even (Qfloor x))| |];
    rewrite ?inject_Z_plus; change (inject_Z 1) with 1; lra.
Qed.

Lemma pow2_pos (e : Z) : 0 < Float.pow2 e.
Proof. unfold Float.pow2. apply Qpower_0_lt. lra. Qed.

Lemma ilog2_lower (x : Q) : 0 < x -> Float.pow2 (Float.ilog2 x) <= x.
Proof.
  intros Hx. unfold Float.ilog2.
  set (n := (Z.log2 (Qnum x) - Z.log2 (Z.pos (Qden x)))%Z).
  destruct (Qle_bool (Float.pow2 n) x) eqn:Hb.
  - by apply Qle_bool_iff.
  - destruct x as [p q]. cbn [Qnum Qden] in n.
    assert (Hp : (0 < p)%Z) by (unfold Qlt in Hx; simpl in Hx; lia).
    pose proof (Z.log2_spec p Hp) as [Hp1 _].
    pose proof (Z.log2_spec (Z.pos q) (Pos2Z.is_pos q)) as [_ Hq2].
    pose proof (Z.log2_nonneg p) as Ha.
    pose proof (Z.log2_nonneg (Z.pos q)) as Hb'.
    replace (n - 1)%Z with (Z.log2 p - Z.succ (Z.log2 (Z.pos q)))%Z by (subst n; lia).
    unfold Float.pow2. rewrite Qpower_minus by lra.
    rewrite <- !(Zpower_Qpower 2) by lia.
    rewrite (Qmake_Qdiv p q).
    set (A := (2 ^ Z.log2 p)%Z) in *.
    set (B := (2 ^ Z.succ (Z.log2 (Z.pos q)))%Z) in *.
    assert (HB : (0 < B)%Z) by lia.
    apply Qle_shift_div_l.
    { change 0 with (inject_Z 0). rewrite <- Zlt_Qlt. lia. }
    unfold Qdiv. rewrite <- Qmult_assoc, (Qmult_comm (/ _)), Qmult_assoc.
    apply Qle_shift_div_r.
    { change 0 with (inject_Z 0). rewrite <- Zlt_Qlt. lia. }
    rewrite <- !inject_Z_mult, <- Zle_Qle. nia.
Qed.

Lemma Qabs_nonneg_eq (x : Q) : 0 <= x -> Qabs x = x.
Proof.
  destruct x as [p q]. unfold Qle. simpl. intros H.
  rewrite Z.abs_eq by lia. reflexivity.
Qed.

Lemma fl_bounds (x : Q) :
  0 <= x -> x * (1 - Float.u64) <= Float.fl x <= x * (1 + Float.u64).
Proof.
  intros Hx. unfold Float.fl.
  destruct (Qeq_bool x 0) eqn:Hz.
  { apply Qeq_bool_iff in Hz. rewrite Hz. unfold Float.u64. lra. }
  assert (Hpos : 0 < x).
  { apply Qeq_bool_neq in Hz. lra. }
  rewrite Qred_correct.
  rewrite (Qabs_nonneg_eq x) by lra.
  set (l := Float.ilog2 x).
  pose proof (ilog2_lower x Hpos) as Hl. fold l in Hl.
  set (s := Float.pow2 (l - 52)).
  assert (Hs : 0 < s) by apply pow2_pos.
  assert (Hsl : s * 4503599627370496 == Float.pow2 l).
  { unfold s, Float.pow2. rewrite Qpower_minus by lra.
    change (2 ^ 52) with 4503599627370496. field. }
  pose proof (round_bounds (x / s)) as [Hr1 Hr2].
  assert (Hxs : x / s * s == x) by (field; lra).
  set (r := inject_Z (Float.round (x / s))) in *.
  assert (H1 : (x / s - (1 # 2)) * s <= r * s) by (apply Qmult_le_compat_r; lra).
  assert (H2 : r * s <= (x / s + (1 # 2)) * s) by (apply Qmult_le_compat_r; lra).
  unfold Float.u64. split; lra.
Qed.



Lemma ltb_false_iff (x y : Q) : Float.ltb x y = false <-> y <= x.
Proof.
  unfold Float.ltb. rewrite negb_false_iff. apply Qle_bool_iff.
Qed.

Lemma ltb_true_iff (x y : Q) : Float.ltb x y = true <-> x < y.
Proof.
  unfold Float.ltb. rewrite negb_true_iff. split.
  - intros H. apply Qnot_le_lt. intros Hle.
    apply Qle_bool_iff in Hle. congruence.
  - intros H. destruct (Qle_bool y x) eqn:E; [|done].
    apply Qle_bool_iff in E. lra.
Qed.

End FloatFacts.

(* ===================================================================== *)
(** * Geometry resolver                                                   *)
(* ===================================================================== *)

Section GeometryFacts.

Import MultiaspectImage.

Variable args : Args.
Let a : Z := aspect_bucket_alignment args.
Hypothesis alignment_pos : (0 < a)%Z.

Local Open Scope Q_scope.

Lemma round_to_nearest_multiple_eq (value : Q) :
  _round_to_nearest_multiple args value =
  Ok (Z.max (Float.round (Float.div value (inject_Z a)) * a) a).
Proof.
  unfold _round_to_nearest_multiple. fold a.
  destruct (Z.eqb_spec a 0); [lia|reflexivity].
Qed.

(** Every value that [_round_to_nearest_multiple] returns is a positive
    multiple of the alignment. *)
Lemma round_to_nearest_multiple_aligned (value : Q) (r : Z) :
  _round_to_nearest_multiple args value = Ok r ->
  (a <= r)%Z /\ (a | r)%Z.
Proof.
  rewrite round_to_nearest_multiple_eq. intros [= <-]. split; [lia|].
  destruct (Z.max_spec (Float.round (Float.div value (inject_Z a)) * a) a)
    as [[_ ->]|[_ ->]].
  - apply Z.divide_refl.
  - apply Z.divide_factor_r.
Qed.


(** A whole number of alignment steps is left as it is. *)
Lemma round_to_nearest_multiple_of_multiple (k : Z) :
  (0 < k < 2 ^ 52)%Z ->
  _round_to_nearest_multiple args (inject_Z (k * a)) = Ok (k * a)%Z.
Proof.
  intros [Hk1 Hk2]. rewrite round_to_nearest_multiple_eq. f_equal.
  assert (Ha : 0 < inject_Z a).
  { change 0 with (inject_Z 0). rewrite <- Zlt_Qlt. exact alignment_pos. }
  assert (Hkq : 0 < inject_Z k < 4503599627370496).
  { change 0 with (inject_Z 0).
    change 4503599627370496 with (inject_Z (2 ^ 52)).
    rewrite <- !Zlt_Qlt. lia. }
  set (x := inject_Z (k * a) / inject_Z a).
  assert (Hx : x == inject_Z k).
  { unfold x. rewrite inject_Z_mult. field. lra. }
  change (Float.div (inject_Z (k * a)) (inject_Z a)) with (Float.fl x).
  clearbody x.
  pose proof (fl_bounds x ltac:(lra)) as [H1 H2].
  pose proof (round_bounds (Float.fl x)) as [H3 H4].
  assert (Hr : Float.round (Float.fl x) = k).
  { unfold Float.u64 in *.
    assert (inject_Z (k - 1) < inject_Z (Float.round (Float.fl x))).
    { unfold Z.sub. rewrite inject_Z_plus. change (inject_Z (- (1))) with (-1). lra. }
    assert (inject_Z (Float.round (Float.fl x)) < inject_Z (k + 1)).
    { rewrite inject_Z_plus. change (inject_Z 1) with 1. lra. }
    rewrite <- Zlt_Qlt in *. lia. }
  rewrite Hr. nia.
Qed.

(** ** The pixel-edge resolver *)

Section PixelEdge.

Variables aspect_ratio resolution : Q.
Hypothesis aspect_ratio_pos : 0 < aspect_ratio.









End PixelEdge.

(** ** The pixel-area resolver *)

Section PixelArea.

Variables aspect_ratio total_pixels : Q.





End PixelArea.




End GeometryFacts.





(* ===================================================================== *)
(** * Bucket index store                                                  *)
(* ===================================================================== *)

Section BucketFacts.

Import DreamBoothDataset.

Variable open_image : string -> Image + exn.

Lemma measure_aspect_ratio_not_out_of_fuel (path : string) :
  measure_aspect_ratio open_image path <> OutOfFuel.
Proof.
  unfold measure_aspect_ratio.
  destruct (open_image path) as [im|e]; [|done].
  by destruct (img_height (exif_transpose im) =? 0).
Qed.

(** [_process_image] always returns. *)
Lemma process_image_returns (path : string) (indices : gmap string (list string)) :
  exists out, _process_image open_image path indices = Ok out.
Proof.
  unfold _process_image.
  pose proof (measure_aspect_ratio_not_out_of_fuel path) as Hm.
  destruct (measure_aspect_ratio open_image path); cbn; eauto. done.
Qed.

(** A worker always runs its shard to the end. *)
Lemma bucket_worker_returns (files : list string) (existing : gset string) :
  forall indices : gmap string (list string),
    exists out, _bucket_worker open_image files existing indices = Ok out.
Proof.
  induction files as [|file files IH]; intros indices; cbn; [eauto|].
  destruct (decide (file ∈ existing)).
  - destruct (IH indices) as [[[sent ticks] logs] ->]. cbn. eauto.
  - destruct (process_image_returns file indices) as [[indices' errors] ->]. cbn.
    destruct (IH indices') as [[[sent ticks] logs] ->]. cbn. eauto.
Qed.

End BucketFacts.

(** C8.  When reading or measuring a file raises, [_process_image] logs
    the error, returns the mapping it was given and raises nothing; the
    worker reports the unchanged mapping and goes on with the rest of its
    shard from that mapping. *)
Theorem process_image_recovers_from_decode_failure
    (open_image : string -> Image + exn) (path : string)
    (indices : gmap string (list string)) (e : exn) :
  DreamBoothDataset.measure_aspect_ratio open_image path = Raise e ->
  let errors :=
    [LogText ERROR ("Error processing image " +:+ path +:+ ".");
     LogException ERROR e] in
  DreamBoothDataset._process_image open_image path indices
    = Ok (indices, errors) /\
  forall (rest : list string) (existing : gset string),
    path ∉ existing ->
    exists sent ticks logs,
      DreamBoothDataset._bucket_worker open_image rest existing indices
        = Ok (sent, ticks, logs) /\
      DreamBoothDataset._bucket_worker open_image (path :: rest) existing indices
        = Ok (indices :: sent, 1 :: ticks, errors ++ logs).
Proof.
  intros Hm errors.
  assert (Hp : DreamBoothDataset._process_image open_image path indices
               = Ok (indices, errors)).
  { unfold DreamBoothDataset._process_image. rewrite Hm. reflexivity. }
  split; [exact Hp|].
  intros rest existing Hnew.
  destruct (bucket_worker_returns open_image rest existing indices)
    as [[[sent ticks] logs] Hrest].
  exists sent, ticks, logs. split; [exact Hrest|].
  cbn [DreamBoothDataset._bucket_worker].
  destruct (decide (path ∈ existing)); [done|].
  rewrite Hp. cbn [bind]. rewrite Hrest. reflexivity.
Qed.

(** A corrupt file in front of a readable one. *)
Lemma process_image_recovers_from_decode_failure_witness :
  DreamBoothDataset._process_image Samples.open_one_corrupt "bad.png" ∅
    = Ok (∅, [LogText ERROR "Error processing image bad.png.";
              LogException ERROR (DecodeError "cannot identify image file")]) /\
  exists sent ticks logs,
    DreamBoothDataset._bucket_worker Samples.open_one_corrupt ["good.png"] ∅ ∅
      = Ok (sent, ticks, logs) /\
    DreamBoothDataset._bucket_worker Samples.open_one_corrupt
        ["bad.png"; "good.png"] ∅ ∅
      = Ok (∅ :: sent, 1 :: ticks,
            [LogText ERROR "Error processing image bad.png.";
             LogException ERROR (DecodeError "cannot identify image file")]
            ++ logs).
Proof.
  destruct (process_image_recovers_from_decode_failure Samples.open_one_corrupt
              "bad.png" ∅ (DecodeError "cannot identify image file")) as [Hp Hw].
  - reflexivity.
  - split; [exact Hp|]. apply (Hw ["good.png"] ∅). apply not_elem_of_empty.
Defined.

(** ** Merging the partial mappings *)

Section Interleavings.

Context {A : Type}.

Lemma interleaving_inv (queues : list (list A)) (ms : list A) :
  interleaving queues ms ->
  (ms = [] /\ Forall (fun q => q = []) queues) \/
  (exists i x q rest,
     ms = x :: rest /\ queues !! i = Some (x :: q) /\
     interleaving (<[i := q]> queues) rest).
Proof. intros H. inversion H; subst; [left|right]; eauto 10. Qed.

Lemma interleaving_all_empty (queues : list (list A)) (ms : list A) :
  Forall (fun q => q = []) queues -> interleaving queues ms -> ms = [].
Proof.
  intros HF H.
  apply interleaving_inv in H as [[-> _]|(i & x & q & rest & _ & Hi & _)]; [done|].
  rewrite Forall_lookup in HF. by specialize (HF i _ Hi).
Qed.

Lemma interleaving_empty_queues (n : nat) (ms : list A) :
  interleaving (replicate n []) ms -> ms = [].
Proof.
  apply interleaving_all_empty. apply Forall_forall.
  by intros q [-> _]%elem_of_replicate.
Qed.

(** One message in all: it is the one received. *)
Lemma interleaving_single (n k : nat) (m : A) (ms : list A) :
  interleaving (replicate n [] ++ [m] :: replicate k []) ms -> ms = [m].
Proof.
  intros H. apply interleaving_inv in H as [[_ HF]|(i & x & q & rest & -> & Hi & Hr)].
  - rewrite Forall_app, Forall_cons in HF. by destruct HF as (_ & ? & _).
  - destruct (decide (i < n)%nat) as [Hlt|Hge].
    + rewrite lookup_app_l in Hi by (rewrite length_replicate; lia).
      apply lookup_replicate in Hi as [Hi _]. discriminate.
    + rewrite lookup_app_r in Hi by (rewrite length_replicate; lia).
      rewrite length_replicate in Hi.
      destruct (i - n)%nat as [|j] eqn:Hj; simpl in Hi.
      * injection Hi as <- <-.
        replace i with (length (replicate n (@nil A)) + 0)%nat in Hr
          by (rewrite length_replicate; lia).
        rewrite insert_app_r in Hr. simpl in Hr.
        change ([] :: replicate k []) with (replicate (S k) (@nil A)) in Hr.
        rewrite <- replicate_add in Hr.
        apply interleaving_empty_queues in Hr. by subst.
      * apply lookup_replicate in Hi as [Hi _]. discriminate.
Qed.

(** One message from each of the first two workers: they arrive in
    either order. *)
Lemma interleaving_two (k : nat) (m1 m2 : A) (ms : list A) :
  interleaving ([m1] :: [m2] :: replicate k []) ms ->
  ms = [m1; m2] \/ ms = [m2; m1].
Proof.
  intros H. apply interleaving_inv in H as [[_ HF]|(i & x & q & rest & -> & Hi & Hr)].
  - by apply Forall_cons in HF as [? _].
  - destruct i as [|[|i]]; simpl in Hi.
    + injection Hi as <- <-. simpl in Hr.
      apply (interleaving_single 1 k) in Hr. subst. by left.
    + injection Hi as <- <-. simpl in Hr.
      apply (interleaving_single 0 (S k)) in Hr. subst. by right.
    + apply lookup_replicate in Hi as [Hi _]. discriminate.
Qed.

Lemma interleaving_in_order (queues : list (list A)) :
  interleaving queues (concat queues).
Proof.
  assert (Hgen : forall done_ todo : list (list A),
    Forall (fun q => q = []) done_ ->
    interleaving (done_ ++ todo) (concat todo)).
  { intros done_ todo. revert done_.
    induction todo as [|q todo IH]; intros done_ Hd.
    - rewrite app_nil_r. by constructor.
    - induction q as [|x q IHq]; simpl.
      + replace (done_ ++ [] :: todo) with ((done_ ++ [[]]) ++ todo)
          by (by rewrite <- app_assoc).
        apply IH. apply Forall_app. split; [done|]. by repeat constructor.
      + apply (interleaving_next _ (length done_ + 0) x q).
        * by rewrite lookup_app_r, Nat.add_0_r, Nat.sub_diag by lia.
        * rewrite insert_app_r. simpl. exact IHq. }
  apply (Hgen [] queues). constructor.
Qed.

End Interleavings.

Section TwoSquareFiles.

Import DreamBoothDataset Samples.

Variable json_dump : json -> string.

Let only_a : gmap string (list string) := {[ "1.0" := ["a.png"] ]}.
Let only_b : gmap string (list string) := {[ "1.0" := ["b.png"] ]}.
Let a_then_b : gmap string (list string) := {[ "1.0" := ["a.png"; "b.png"] ]}.
Let b_then_a : gmap string (list string) := {[ "1.0" := ["b.png"; "a.png"] ]}.

Lemma first_run_mappings :
  worker_mappings open_square fresh_dataset two_files
  = Ok ([only_a] :: [only_b] :: replicate 6 []).
Proof. vm_compute. reflexivity. Qed.

Lemma first_run_outcomes outcome :
  bulk_run open_square json_dump fresh_dataset two_files outcome ->
  (outcome.1.1 = only_b /\
   store_indices outcome = mkDataset only_b [PathObj "a.png"; PathObj "b.png"; StrObj "a.png"; StrObj "b.png"] 4 2) \/
  (outcome.1.1 = only_a /\
   store_indices outcome = mkDataset only_a [PathObj "a.png"; PathObj "b.png"; StrObj "a.png"; StrObj "b.png"] 4 2).
Proof.
  intros (queues & received & Hq & Hi & ->).
  rewrite first_run_mappings in Hq. injection Hq as <-.
  apply (interleaving_two 6) in Hi as [-> | ->]; [left|right];
    split; vm_compute; reflexivity.
Qed.

Lemma second_run_outcome_from_b outcome :
  bulk_run open_square json_dump
    (mkDataset only_b [PathObj "a.png"; PathObj "b.png"; StrObj "a.png"; StrObj "b.png"] 4 2) two_files outcome ->
  outcome.1.1 = b_then_a.
Proof.
  intros (queues & received & Hq & Hi & ->).
  assert (Hm : worker_mappings open_square
                 (mkDataset only_b [PathObj "a.png"; PathObj "b.png"; StrObj "a.png"; StrObj "b.png"] 4 2) two_files
               = Ok (replicate 0 [] ++ [b_then_a] :: replicate 7 []))
    by (vm_compute; reflexivity).
  rewrite Hm in Hq. injection Hq as <-.
  apply (interleaving_single 0 7) in Hi as ->. vm_compute. reflexivity.
Qed.

Lemma second_run_outcome_from_a outcome :
  bulk_run open_square json_dump
    (mkDataset only_a [PathObj "a.png"; PathObj "b.png"; StrObj "a.png"; StrObj "b.png"] 4 2) two_files outcome ->
  outcome.1.1 = a_then_b.
Proof.
  intros (queues & received & Hq & Hi & ->).
  assert (Hm : worker_mappings open_square
                 (mkDataset only_a [PathObj "a.png"; PathObj "b.png"; StrObj "a.png"; StrObj "b.png"] 4 2) two_files
               = Ok (replicate 1 [] ++ [a_then_b] :: replicate 6 []))
    by (vm_compute; reflexivity).
  rewrite Hm in Hq. injection Hq as <-.
  apply (interleaving_single 1 6) in Hi as ->. vm_compute. reflexivity.
Qed.

Lemma bulk_run_exists (self : Dataset) (files : list string) :
  exists outcome, bulk_run open_square json_dump self files outcome.
Proof.
  unfold bulk_run, worker_mappings.
  assert (Hq : forall shards, exists queues,
    foldr (fun files acc =>
             let! '(sent, _, _) :=
               _bucket_worker open_square files
                 (files_of (aspect_ratio_bucket_indices self))
                 (aspect_ratio_bucket_indices self) in
             let! rest := acc in Ok (sent :: rest))
          (Ok []) shards = Ok queues).
  { induction shards as [|shard shards [queues IH]]; simpl; [eauto|].
    destruct (bucket_worker_returns open_square shard
                (files_of (aspect_ratio_bucket_indices self))
                (aspect_ratio_bucket_indices self)) as [[[sent ?] ?] ->].
    rewrite IH. cbn. eauto. }
  destruct (Hq (array_split files 8)) as [queues Hqueues].
  eexists. exists queues, (concat queues).
  split; [exact Hqueues|]. split; [apply interleaving_in_order|reflexivity].
Qed.

End TwoSquareFiles.

(** ** Known files are skipped *)

Section KnownFiles.

Import DreamBoothDataset.

Variable open_image : string -> Image + exn.
Variable json_dump : json -> string.

Lemma bucket_worker_skips_known_files (files : list string)
    (existing : gset string) (indices : gmap string (list string)) :
  Forall (fun file => file ∈ existing) files ->
  _bucket_worker open_image files existing indices
  = Ok ([], replicate (length files) 1, []).
Proof.
  induction 1 as [|file files Hin _ IH]; cbn [_bucket_worker]; [done|].
  destruct (decide (file ∈ existing)); [|done].
  rewrite IH. reflexivity.
Qed.

Lemma split_sizes_elements {A : Type} (sizes : list nat) :
  forall (l : list A) (shard : list A) (x : A),
    shard ∈ split_sizes l sizes -> x ∈ shard -> x ∈ l.
Proof.
  induction sizes as [|k sizes IH]; intros l shard x Hs Hx; simpl in Hs.
  - by apply elem_of_nil in Hs.
  - apply elem_of_cons in Hs as [->|Hs].
    + by apply (subseteq_take k l).
    + apply (subseteq_drop k l). eapply IH; eauto.
Qed.

(** When every candidate file is already in some bucket, no worker sends
    a partial mapping and the run returns the mapping unchanged. *)
Lemma bulk_run_over_known_files_changes_nothing (self : Dataset)
    (all_image_files : list string)
    (outcome : gmap string (list string) * Dataset * string) :
  Forall (fun file => file ∈ files_of (aspect_ratio_bucket_indices self))
         all_image_files ->
  bulk_run open_image json_dump self all_image_files outcome ->
  outcome.1.1 = aspect_ratio_bucket_indices self.
Proof.
  intros Hknown (queues & received & Hq & Hi & ->).
  assert (Hshards : Forall (Forall (fun file =>
            file ∈ files_of (aspect_ratio_bucket_indices self)))
            (array_split all_image_files 8)).
  { apply Forall_forall. intros shard Hs. apply Forall_forall. intros x Hx.
    rewrite Forall_forall in Hknown. apply Hknown.
    eapply split_sizes_elements; eauto. }
  assert (Hempty : Forall (fun q => q = []) queues).
  { unfold worker_mappings in Hq. clear Hi. revert queues Hq.
    induction Hshards as [|shard shards Hshard _ IH]; intros queues Hq;
      cbn [foldr] in Hq.
    - injection Hq as <-. constructor.
    - rewrite (bucket_worker_skips_known_files _ _ _ Hshard) in Hq.
      cbn [bind] in Hq.
      destruct (foldr _ _ shards) as [rest| |] eqn:E; cbn [bind] in Hq;
        [|discriminate..].
      injection Hq as <-. constructor; [done|]. by apply IH. }
  apply (interleaving_all_empty _ _ Hempty) in Hi as ->.
  unfold compute_aspect_ratio_bucket_indices. cbn [fst foldl].
  destruct (bool_decide (aspect_ratio_bucket_indices self ≠ ∅)) eqn:Hne; [done|].
  apply bool_decide_eq_false in Hne. symmetry. by apply dec_stable.
Qed.

End KnownFiles.

(** C3 asks that every file a worker processed without a decode error be
    in the returned mapping.  The code does not meet it: two square images
    land in two different shards, each worker reports its own file under
    key "1.0", and whatever the order in which the coordinator receives
    the two partial mappings, [dict.update] leaves only one of the files
    in the returned mapping. *)
Theorem bulk_run_drops_a_file_of_a_shared_bucket (json_dump : json -> string) :
  DreamBoothDataset.worker_mappings Samples.open_square Samples.fresh_dataset
    Samples.two_files
  = Ok ([{[ "1.0" := ["a.png"] ]}] :: [{[ "1.0" := ["b.png"] ]}]
        :: replicate 6 []) /\
  (exists outcome,
     DreamBoothDataset.bulk_run Samples.open_square json_dump
       Samples.fresh_dataset Samples.two_files outcome) /\
  forall outcome,
    DreamBoothDataset.bulk_run Samples.open_square json_dump
      Samples.fresh_dataset Samples.two_files outcome ->
    outcome.1.1 = {[ "1.0" := ["b.png"] ]} \/
    outcome.1.1 = {[ "1.0" := ["a.png"] ]}.
Proof.
  split; [apply first_run_mappings|]. split; [apply bulk_run_exists|].
  intros outcome Hrun.
  destruct (first_run_outcomes json_dump outcome Hrun) as [[H _]|[H _]]; auto.
Qed.

(** C7 asks that a second run over an unchanged directory return the
    same mapping and add nothing.  The code does not meet it: over the
    same two square images, the second run always returns a mapping that
    differs from the one of the first run, because the file that the first
    run dropped is processed again and added. *)
Theorem second_bulk_run_adds_the_dropped_file (json_dump : json -> string) :
  (exists first second,
     DreamBoothDataset.bulk_run Samples.open_square json_dump
       Samples.fresh_dataset Samples.two_files first /\
     DreamBoothDataset.bulk_run Samples.open_square json_dump
       (DreamBoothDataset.store_indices first) Samples.two_files second) /\
  forall first second,
    DreamBoothDataset.bulk_run Samples.open_square json_dump
      Samples.fresh_dataset Samples.two_files first ->
    DreamBoothDataset.bulk_run Samples.open_square json_dump
      (DreamBoothDataset.store_indices first) Samples.two_files second ->
    (first.1.1 = {[ "1.0" := ["b.png"] ]} /\
     second.1.1 = {[ "1.0" := ["b.png"; "a.png"] ]}) \/
    (first.1.1 = {[ "1.0" := ["a.png"] ]} /\
     second.1.1 = {[ "1.0" := ["a.png"; "b.png"] ]}).
Proof.
  split.
  - destruct (bulk_run_exists json_dump Samples.fresh_dataset Samples.two_files)
      as [first H1].
    destruct (bulk_run_exists json_dump (DreamBoothDataset.store_indices first)
                Samples.two_files) as [second H2].
    eauto.
  - intros first second H1 H2.
    destruct (first_run_outcomes json_dump first H1) as [[Hf Hs]|[Hf Hs]];
      rewrite Hs in H2; [left|right]; (split; [exact Hf|]).
    + by apply second_run_outcome_from_b in H2.
    + by apply second_run_outcome_from_a in H2.
Qed.

(** ** The cache file *)

Section CacheFacts.

Import DreamBoothDataset.

Lemma strings_of_json_of_strings (files : list string) :
  strings_of_json (JArr (JStr <$> files)) = Some files.
Proof.
  unfold strings_of_json. apply mapM_fmap_Forall_Some.
  by apply Forall_forall.
Qed.

Lemma indices_of_json_of_indices (indices : gmap string (list string)) :
  indices_of_json (json_of_indices indices) = Some indices.
Proof.
  unfold indices_of_json, json_of_indices.
  rewrite mapM_fmap_Forall_Some.
  - simpl. by rewrite list_to_map_to_list.
  - apply Forall_forall. intros [k files] _. cbv beta. cbn [fst snd].
    by rewrite strings_of_json_of_strings.
Qed.

End CacheFacts.

(** C4, counterexample.  With no cache file, the [open] call of
    [load_aspect_ratio_bucket_indices] raises [FileNotFoundError] to the
    caller. *)
Lemma load_raises_when_cache_file_is_absent :
  DreamBoothDataset.load_aspect_ratio_bucket_indices MiniJson.load None
  = ([LogText INFO "Loading aspect ratio bucket indices from cache file."],
     Raise FileNotFoundError).
Proof. reflexivity. Qed.

(** C4, as amended.  Whenever the cache file exists and [json.load]
    raises on its text, [load_aspect_ratio_bucket_indices] logs a warning
    and returns the empty mapping, raising nothing. *)
Theorem load_recovers_from_unparsable_cache
    (json_load : string -> result json) (text : string) :
  (forall v, json_load text <> Ok v) ->
  DreamBoothDataset.load_aspect_ratio_bucket_indices json_load (Some text)
  = ([LogText INFO "Loading aspect ratio bucket indices from cache file.";
      LogText WARNING
        "Could not load aspect ratio bucket indices from cache file. Creating a new one!";
      LogText INFO "Loading of aspect bucket indexes completed."],
     Ok (JObj [])).
Proof.
  intros Hbad. unfold DreamBoothDataset.load_aspect_ratio_bucket_indices.
  destruct (json_load text) as [v| |] eqn:E; [by destruct (Hbad v)|done..].
Qed.

Lemma load_recovers_from_unparsable_cache_witness :
  DreamBoothDataset.load_aspect_ratio_bucket_indices MiniJson.load
    (Some "this is not valid json")
  = ([LogText INFO "Loading aspect ratio bucket indices from cache file.";
      LogText WARNING
        "Could not load aspect ratio bucket indices from cache file. Creating a new one!";
      LogText INFO "Loading of aspect bucket indexes completed."],
     Ok (JObj [])).
Proof.
  apply (load_recovers_from_unparsable_cache MiniJson.load "this is not valid json").
  intros v. vm_compute. discriminate.
Defined.

(** C5, counterexample.  Two dataset objects that differ in their
    known-file list complete a bulk run over the same directory and write
    the same cache text: the list is not in it. *)
Lemma saved_cache_omits_known_files :
  let run self :=
    DreamBoothDataset.compute_aspect_ratio_bucket_indices MiniJson.dump
      self ["a.png"] [] in
  DreamBoothDataset.bulk_run Samples.open_square MiniJson.dump
    Samples.dataset_knowing_one ["a.png"] (run Samples.dataset_knowing_one) /\
  DreamBoothDataset.bulk_run Samples.open_square MiniJson.dump
    Samples.dataset_knowing_two ["a.png"] (run Samples.dataset_knowing_two) /\
  (run Samples.dataset_knowing_one).2 = (run Samples.dataset_knowing_two).2 /\
  DreamBoothDataset.instance_images_path (run Samples.dataset_knowing_one).1.2
  <> DreamBoothDataset.instance_images_path (run Samples.dataset_knowing_two).1.2.
Proof.
  assert (Hidle : forall self,
    DreamBoothDataset.worker_mappings Samples.open_square self ["a.png"]
      = Ok (replicate 8 []) ->
    DreamBoothDataset.bulk_run Samples.open_square MiniJson.dump self ["a.png"]
      (DreamBoothDataset.compute_aspect_ratio_bucket_indices MiniJson.dump
         self ["a.png"] [])).
  { intros self Hq. exists (replicate 8 []), []. split; [exact Hq|].
    split; [|reflexivity]. constructor. by repeat constructor. }
  split; [apply Hidle; vm_compute; reflexivity|].
  split; [apply Hidle; vm_compute; reflexivity|].
  split; [vm_compute; reflexivity|vm_compute; discriminate].
Qed.

(** C5, as amended.  The cache text is the serialized bucket mapping and
    nothing else; if the [json] codec reads back the value it wrote, loading
    that text gives the bucket mapping that was returned. *)
Theorem saved_cache_reloads_bucket_mapping
    (json_dump : json -> string) (json_load : string -> result json)
    (self : DreamBoothDataset.Dataset) (all_image_files : list string)
    (received : list (gmap string (list string))) :
  let outcome :=
    DreamBoothDataset.compute_aspect_ratio_bucket_indices json_dump
      self all_image_files received in
  json_load (json_dump (DreamBoothDataset.json_of_indices outcome.1.1))
    = Ok (DreamBoothDataset.json_of_indices outcome.1.1) ->
  outcome.2 = json_dump (DreamBoothDataset.json_of_indices outcome.1.1) /\
  exists logs loaded,
    DreamBoothDataset.load_aspect_ratio_bucket_indices json_load (Some outcome.2)
      = (logs, Ok loaded) /\
    DreamBoothDataset.indices_of_json loaded = Some outcome.1.1.
Proof.
  intros outcome Hcodec.
  split; [reflexivity|].
  change outcome.2
    with (json_dump (DreamBoothDataset.json_of_indices outcome.1.1)).
  unfold DreamBoothDataset.load_aspect_ratio_bucket_indices.
  rewrite Hcodec. eexists _, _. split; [reflexivity|].
  apply indices_of_json_of_indices.
Qed.

Lemma saved_cache_reloads_bucket_mapping_witness :
  let outcome :=
    DreamBoothDataset.compute_aspect_ratio_bucket_indices MiniJson.dump
      Samples.fresh_dataset Samples.two_files
      [{[ "1.0" := ["a.png"] ]}; {[ "1.0" := ["b.png"] ]}] in
  outcome.2 = MiniJson.dump (DreamBoothDataset.json_of_indices outcome.1.1) /\
  exists logs loaded,
    DreamBoothDataset.load_aspect_ratio_bucket_indices MiniJson.load
      (Some outcome.2) = (logs, Ok loaded) /\
    DreamBoothDataset.indices_of_json loaded = Some outcome.1.1.
Proof.
  apply (saved_cache_reloads_bucket_mapping MiniJson.dump MiniJson.load
           Samples.fresh_dataset Samples.two_files
           [{[ "1.0" := ["a.png"] ]}; {[ "1.0" := ["b.png"] ]}]).
  vm_compute. reflexivity.
Defined.

(* ===================================================================== *)
(** * [prepare_image]                                                     *)
(* ===================================================================== *)

Section NoUnboundLocal.

Import MultiaspectImage.

(** [r] does not end in an [UnboundLocalError]. *)
Let bound {A : Type} (r : result A) : Prop :=
  forall var, r <> Raise (UnboundLocalError var).

Lemma bound_bind {A B : Type} (r : result A) (k : A -> result B) :
  bound r -> (forall a, bound (k a)) -> bound (bind r k).
Proof.
  intros Hr Hk var. destruct r as [a|e|]; cbn; [apply Hk| |done].
  intros [= ->]. by apply (Hr var).
Qed.

Ltac bound_step :=
  match goal with
  | |- bound (bind _ _) => apply bound_bind; [|intros ?]
  | |- bound (Ok _) => intros ? ?; discriminate
  | |- bound OutOfFuel => intros ? ?; discriminate
  | |- bound (Raise ZeroDivisionError) => intros ? ?; discriminate
  | |- bound (Raise TypeError) => intros ? ?; discriminate
  | |- bound (Raise AttributeError) => intros ? ?; discriminate
  | |- bound (Raise (ValueError _)) => intros ? ?; discriminate
  | |- bound (if ?b then _ else _) => destruct b
  | |- bound (match ?x with _ => _ end) => destruct x
  | |- bound (let '(_, _) := ?x in _) => destruct x
  end.

Variable args : Args.

Lemma bound_round_to_nearest_multiple (value : Q) :
  bound (_round_to_nearest_multiple args value).
Proof. unfold _round_to_nearest_multiple. repeat bound_step. Qed.

Lemma bound_aspect_ratio (image : aspect_source) :
  bound (calculate_image_aspect_ratio args image).
Proof. unfold calculate_image_aspect_ratio. repeat bound_step. Qed.

Lemma bound_pixel_edge_loop (fuel : nat) (aspect_ratio resolution : Q) :
  forall W H, bound (pixel_edge_loop args fuel aspect_ratio resolution W H).
Proof.
  induction fuel as [|fuel IH]; intros W H; cbn [pixel_edge_loop].
  - repeat bound_step.
  - bound_step; [|bound_step]. bound_step.
    + apply bound_round_to_nearest_multiple.
    + apply IH.
Qed.

Lemma bound_pixel_area_loop (fuel : nat) (aspect_ratio total_pixels : Q) :
  forall W H, bound (pixel_area_loop args fuel aspect_ratio total_pixels W H).
Proof.
  induction fuel as [|fuel IH]; intros W H; cbn [pixel_area_loop].
  - repeat bound_step.
  - bound_step; [|bound_step]. bound_step.
    + apply bound_round_to_nearest_multiple.
    + apply IH.
Qed.

Lemma bound_pixel_edge (fuel : nat) (aspect_ratio resolution : Q) :
  bound (calculate_new_size_by_pixel_edge args fuel aspect_ratio resolution).
Proof.
  unfold calculate_new_size_by_pixel_edge.
  repeat first [ apply bound_round_to_nearest_multiple
               | apply bound_pixel_edge_loop
               | apply bound_aspect_ratio
               | bound_step ].
Qed.

Lemma bound_pixel_area (fuel : nat) (aspect_ratio megapixels : Q) :
  bound (calculate_new_size_by_pixel_area args fuel aspect_ratio megapixels).
Proof.
  unfold calculate_new_size_by_pixel_area, round_sqrt.
  repeat first [ apply bound_round_to_nearest_multiple
               | apply bound_pixel_area_loop
               | apply bound_aspect_ratio
               | bound_step ].
Qed.

Lemma bound_resize_stages (fuel : nat) (tw th : Z) :
  forall cw ch, bound (resize_stages fuel tw th cw ch).
Proof.
  induction fuel as [|fuel IH]; intros cw ch; cbn [resize_stages].
  - repeat bound_step.
  - bound_step; [|bound_step]. bound_step; [apply IH|bound_step].
Qed.

Lemma bound_resize_image (fuel : nat) (input_image : option Image)
    (tw th : Z) (image_metadata : option ImageMetadata) :
  is_Some input_image \/ is_Some image_metadata ->
  bound (_resize_image fuel input_image tw th image_metadata).
Proof.
  intros Hpresent. unfold _resize_image.
  destruct input_image as [im|]; [|destruct image_metadata as [md|]];
    [| |destruct Hpresent as [[? [=]]|[? [=]]]]; cbn [fmap option_fmap option_map];
    repeat first [ apply bound_resize_stages | bound_step ].
Qed.

Variable backend_config : string -> BackendConfig.
Variable crop_handlers :
  string -> option Image -> option ImageMetadata -> Z -> Z ->
  option Image * (Z * Z).

Lemma bound_prepare_image_locals (fuel : nat) (resolution : Q)
    (image : option Image) (image_metadata : option ImageMetadata)
    (resolution_type id : string) :
  is_Some image \/ is_Some image_metadata ->
  bound (prepare_image_locals args backend_config crop_handlers fuel
           resolution image image_metadata resolution_type id).
Proof.
  intros Hpresent. unfold prepare_image_locals, derive_image_size.
  destruct image as [im|]; [|destruct image_metadata as [md|]];
    [| |destruct Hpresent as [[? [=]]|[? [=]]]];
    cbn [bind];
    (apply bound_bind; [apply bound_round_to_nearest_multiple|intros ?]);
    (apply bound_bind;
      [unfold is_image_too_large; repeat bound_step|intros [? ?]]);
    (apply bound_bind; [apply bound_aspect_ratio|intros ?]);
    (apply bound_bind;
      [unfold calculate_new_size;
       repeat first [apply bound_pixel_edge|apply bound_pixel_area|bound_step]
      |intros [[? ?] ?]]);
    (apply bound_bind;
      [destruct (String.eqb resolution_type "area");
       [apply bound_round_to_nearest_multiple|bound_step]|intros ?]);
    repeat first
      [ apply bound_resize_image; [eauto]
      | apply bound_pixel_edge | apply bound_pixel_area
      | bound_step ].
Qed.

End NoUnboundLocal.

(** C10.  With neither an image nor metadata, [prepare_image] fails at the
    size derivation with an [UnboundLocalError] for [image_size]; with at
    least one of them the size derivation yields a size and
    [prepare_image] never ends in an [UnboundLocalError]. *)
Theorem prepare_image_requires_image_or_metadata
    (args : Args) (backend_config : string -> BackendConfig)
    (crop_handlers :
       string -> option Image -> option ImageMetadata -> Z -> Z ->
       option Image * (Z * Z))
    (fuel : nat) (resolution : Q)
    (image : option Image) (image_metadata : option ImageMetadata)
    (resolution_type id : string) :
  let run :=
    MultiaspectImage.prepare_image args backend_config crop_handlers fuel
      resolution image image_metadata resolution_type id in
  (image = None /\ image_metadata = None ->
   MultiaspectImage.derive_image_size image image_metadata
     = Raise (UnboundLocalError "image_size") /\
   run = Raise (UnboundLocalError "image_size")) /\
  (is_Some image \/ is_Some image_metadata ->
   (exists image' image_size,
      MultiaspectImage.derive_image_size image image_metadata
        = Ok (image', image_size)) /\
   forall var, run <> Raise (UnboundLocalError var)).
Proof.
  intros run. split.
  - intros [-> ->]. split; reflexivity.
  - intros Hpresent. split.
    + destruct image as [im|]; [|destruct image_metadata as [md|]];
        cbn; eauto.
      destruct Hpresent as [[? [=]]|[? [=]]].
    + intros var. subst run. unfold MultiaspectImage.prepare_image.
      apply bound_bind.
      * intros v. by apply bound_prepare_image_locals.
      * intros l v. destruct (MultiaspectImage.pl_image l); discriminate.
Qed.

Lemma prepare_image_requires_image_or_metadata_witness :
  MultiaspectImage.prepare_image Samples.args64 Samples.pixel_backend
    Samples.corner_crop 8 1024 None None "pixel" "photos"
    = Raise (UnboundLocalError "image_size") /\
  forall var,
    MultiaspectImage.prepare_image Samples.args64 Samples.pixel_backend
      Samples.corner_crop 8 1024 None (Some (mkImageMetadata (1024, 768)))
      "pixel" "photos"
    <> Raise (UnboundLocalError var).
Proof.
  split.
  - apply (prepare_image_requires_image_or_metadata Samples.args64
             Samples.pixel_backend Samples.corner_crop 8 1024 None None
             "pixel" "photos").
    split; reflexivity.
  - apply (prepare_image_requires_image_or_metadata Samples.args64
             Samples.pixel_backend Samples.corner_crop 8 1024 None
             (Some (mkImageMetadata (1024, 768))) "pixel" "photos").
    right. eexists. reflexivity.
Defined.

(** Whenever [prepare_image] takes the oversized-source branch and
    returns, its final target is the one computed from the resolution
    after rounding to the alignment: [original_resolution] itself in pixel
    mode, [original_resolution / 1e3] megapixels in area mode. *)
Lemma downsample_branch_recomputes_from_aligned_resolution
    (args : Args) (backend_config : string -> BackendConfig)
    (crop_handlers :
       string -> option Image -> option ImageMetadata -> Z -> Z ->
       option Image * (Z * Z))
    (fuel : nat) (resolution : Q)
    (image : option Image) (image_metadata : option ImageMetadata)
    (resolution_type id : string) (l : MultiaspectImage.prepare_locals) :
  MultiaspectImage.prepare_image_locals args backend_config crop_handlers fuel
    resolution image image_metadata resolution_type id = Ok l ->
  MultiaspectImage.pl_downsample_before_crop l = true ->
  exists image' image_size original_resolution original_aspect_ratio,
    MultiaspectImage.derive_image_size image image_metadata
      = Ok (image', image_size) /\
    MultiaspectImage._round_to_nearest_multiple args
      (if String.eqb resolution_type "area"
       then Float.mul resolution 1000 else resolution)
      = Ok original_resolution /\
    MultiaspectImage.calculate_image_aspect_ratio args
      (MultiaspectImage.FromTuple image_size) = Ok original_aspect_ratio /\
    (if String.eqb resolution_type "area"
     then MultiaspectImage.calculate_new_size_by_pixel_area args fuel
            original_aspect_ratio
            (Float.div (Float.of_int original_resolution) 1000)
     else MultiaspectImage.calculate_new_size_by_pixel_edge args fuel
            original_aspect_ratio (inject_Z original_resolution))
    = Ok (MultiaspectImage.pl_target_width l,
          MultiaspectImage.pl_target_height l,
          MultiaspectImage.pl_new_aspect_ratio l).
Proof.
  unfold MultiaspectImage.prepare_image_locals. intros Hrun Hflag.
  destruct (MultiaspectImage.derive_image_size image image_metadata)
    as [[image' [ow oh]]| |] eqn:Hsize; cbn [bind] in Hrun; [|discriminate..].
  destruct (MultiaspectImage._round_to_nearest_multiple args _)
    as [orr| |] eqn:Horr in Hrun; cbn [bind] in Hrun; [|discriminate..].
  match type of Hrun with
  | bind ?r _ = _ => destruct r as [[res' flag]| |] eqn:Hpolicy
  end; cbn [bind] in Hrun; [|discriminate..].
  destruct (MultiaspectImage.calculate_image_aspect_ratio args _)
    as [ar| |] eqn:Har in Hrun; cbn [bind] in Hrun; [|discriminate..].
  destruct (MultiaspectImage.calculate_new_size args fuel resolution_type ar res')
    as [[[tw th] nar]| |] eqn:Hfirst; cbn [bind] in Hrun; [|discriminate..].
  match type of Hrun with
  | bind ?r _ = _ => destruct r as [?| |]
  end; cbn [bind] in Hrun; [|discriminate..].
  exists image', (ow, oh), orr, ar. split; [done|]. split; [done|]. split; [done|].
  destruct (crop (backend_config id)); cycle 1.
  { (* without cropping the flag is false *)
    match type of Hrun with
    | bind ?r _ = _ => destruct r as [?| |]
    end; cbn [bind] in Hrun; [|discriminate..].
    injection Hrun as <-. cbn in Hflag.
    simpl in Hpolicy. congruence. }
  destruct (negb _) in Hrun; [discriminate|].
  destruct flag; cycle 1.
  { cbn [bind] in Hrun. destruct (String.eqb (crop_aspect _) _) in Hrun;
      injection Hrun as <-; discriminate Hflag. }
  match type of Hrun with
  | bind (bind ?r _) _ = _ => destruct r as [?| |]
  end; cbn [bind] in Hrun; [|discriminate..].
  match type of Hrun with
  | bind (bind ?r _) _ = _ => destruct r as [[image2 md2]| |]
  end; cbn [bind] in Hrun; [|discriminate..].
  unfold MultiaspectImage.calculate_new_size in Hfirst.
  destruct (String.eqb resolution_type "area") eqn:Harea.
  - assert (Hpixel : String.eqb resolution_type "pixel" = false).
    { apply String.eqb_eq in Harea. by subst. }
    match type of Hrun with
    | bind (bind ?r _) _ = _ => destruct r as [[[tw2 th2] nar2]| |] eqn:Hsecond
    end; cbn [bind] in Hrun; [|discriminate..].
    destruct (String.eqb (crop_aspect _) _) in Hrun;
      injection Hrun as <-; reflexivity.
  - destruct (String.eqb resolution_type "pixel") eqn:Hpixel; [|discriminate].
    match type of Hrun with
    | bind (bind ?r _) _ = _ => destruct r as [[[tw2 th2] nar2]| |] eqn:Hsecond
    end; cbn [bind] in Hrun; [|discriminate..].
    destruct (String.eqb (crop_aspect _) _) in Hrun;
      injection Hrun as <-; reflexivity.
Qed.

(** X9.  In pixel mode, for a resolution that is a whole number of alignment
    steps, the oversized-source branch ends with the target computed
    directly from that resolution. *)
Lemma downsample_branch_keeps_target_of_aligned_pixel_resolution
    (args : Args) (backend_config : string -> BackendConfig)
    (crop_handlers :
       string -> option Image -> option ImageMetadata -> Z -> Z ->
       option Image * (Z * Z))
    (fuel : nat) (k : Z)
    (image : option Image) (image_metadata : option ImageMetadata)
    (id : string) (l : MultiaspectImage.prepare_locals) :
  0 < aspect_bucket_alignment args -> 0 < k < 2 ^ 52 ->
  let resolution := inject_Z (k * aspect_bucket_alignment args) in
  MultiaspectImage.prepare_image_locals args backend_config crop_handlers fuel
    resolution image image_metadata "pixel" id = Ok l ->
  MultiaspectImage.pl_downsample_before_crop l = true ->
  exists image' image_size original_aspect_ratio,
    MultiaspectImage.derive_image_size image image_metadata
      = Ok (image', image_size) /\
    MultiaspectImage.calculate_image_aspect_ratio args
      (MultiaspectImage.FromTuple image_size) = Ok original_aspect_ratio /\
    MultiaspectImage.calculate_new_size_by_pixel_edge args fuel
      original_aspect_ratio resolution
    = Ok (MultiaspectImage.pl_target_width l,
          MultiaspectImage.pl_target_height l,
          MultiaspectImage.pl_new_aspect_ratio l).
Proof.
  intros Ha Hk resolution Hrun Hflag.
  destruct (downsample_branch_recomputes_from_aligned_resolution _ _ _ _ _ _ _ _ _ _
              Hrun Hflag)
    as (image' & image_size & orr & ar & Hsize & Horr & Har & Htarget).
  cbn [String.eqb Ascii.eqb Bool.eqb] in Horr, Htarget.
  unfold resolution in Horr.
  rewrite (round_to_nearest_multiple_of_multiple args Ha k Hk) in Horr.
  injection Horr as <-.
  exists image', image_size, ar. split; [done|]. split; [done|]. exact Htarget.
Qed.

(** C2 asks that the oversized-source branch end with the target computed
    directly from the original resolution.  The code does not meet it: for
    a 3000 by 2000 source at one megapixel, on a backend that pre-shrinks
    sources above 4 megapixels, the branch runs and ends with the target
    1280 by 832, while [calculate_new_size_by_pixel_area] gives 1216 by
    832 for the same aspect ratio and the original one megapixel, which is
    also what [prepare_image] ends with when the policy is switched off.
    In pixel mode a 4000 by 2000 source at resolution 1000 ends with 2048
    by 1024 instead of 1984 by 1024.  The aspect ratio that
    [prepare_image] returns changes with the target. *)
Theorem downsample_branch_changes_final_target
    (crop_handlers :
       string -> option Image -> option ImageMetadata -> Z -> Z ->
       option Image * (Z * Z)) :
  let target l :=
    (MultiaspectImage.pl_target_width l, MultiaspectImage.pl_target_height l,
     MultiaspectImage.pl_downsample_before_crop l) in
  target <$> result_value
    (MultiaspectImage.prepare_image_locals Samples.args64 Samples.area_backend
       crop_handlers 8 1 (Some Samples.photo_3000x2000) None "area" "photos")
    = Some (1280, 832, true) /\
  target <$> result_value
    (MultiaspectImage.prepare_image_locals Samples.args64
       Samples.area_backend_unbounded
       crop_handlers 8 1 (Some Samples.photo_3000x2000) None "area" "photos")
    = Some (1216, 832, false) /\
  fst <$> result_value
    (MultiaspectImage.calculate_new_size_by_pixel_area Samples.args64 8 (3 # 2) 1)
    = Some (1216, 832) /\
  target <$> result_value
    (MultiaspectImage.prepare_image_locals Samples.args64 Samples.pixel_backend
       crop_handlers 8 1000 (Some Samples.panorama_4000x2000) None "pixel" "photos")
    = Some (2048, 1024, true) /\
  fst <$> result_value
    (MultiaspectImage.calculate_new_size_by_pixel_edge Samples.args64 8 2 1000)
    = Some (1984, 1024) /\
  snd <$> result_value
    (MultiaspectImage.prepare_image Samples.args64 Samples.area_backend
       crop_handlers 8 1 (Some Samples.photo_3000x2000) None "area" "photos")
    = Some (Float.round_ndigits (Float.div 1280 832) 2) /\
  snd <$> result_value
    (MultiaspectImage.prepare_image Samples.args64
       Samples.area_backend_unbounded
       crop_handlers 8 1 (Some Samples.photo_3000x2000) None "area" "photos")
    = Some (Float.round_ndigits (Float.div 1216 832) 2).
Proof.
  repeat split; vm_compute; try reflexivity;
    by destruct (crop_handlers _ _ _ _ _) as [[?|] ?].
Qed.

(* ===================================================================== *)
(** * Resize engine                                                       *)
(* ===================================================================== *)

Section ResizeFacts.

Import MultiaspectImage.

Local Open Scope Q_scope.


Lemma shrink_upper (c : Z) :
  (0 <= c)%Z ->
  (Float.trunc (Float.mul (Float.of_int c) (3 # 4)) <= c)%Z /\
  ((1 <= c)%Z -> (Float.trunc (Float.mul (Float.of_int c) (3 # 4)) < c)%Z).
Proof.
  intros Hc.
  assert (Hcq : 0 <= inject_Z c).
  { change 0 with (inject_Z 0). by rewrite <- Zle_Qle. }
  pose proof (fl_bounds _ Hcq) as [H1 H1'].
  change (Float.fl (inject_Z c)) with (Float.of_int c) in H1, H1'.
  set (x := Float.of_int c) in *.
  assert (Hx : 0 <= x * (3 # 4)) by (unfold Float.u64 in H1; lra).
  pose proof (fl_bounds _ Hx) as [H2 H2'].
  change (Float.fl (x * (3 # 4))) with (Float.mul x (3 # 4)) in H2, H2'.
  set (y := Float.mul x (3 # 4)) in *.
  assert (Hy : 0 <= y) by (unfold Float.u64 in *; lra).
  assert (Hyc : y <= inject_Z c * (7 # 8)) by (unfold Float.u64 in *; lra).
  unfold Float.trunc.
  assert (Hb : Qle_bool 0 y = true) by by apply Qle_bool_iff.
  rewrite Hb.
  pose proof (Qfloor_le y) as Hf.
  split.
  - rewrite Zle_Qle. lra.
  - intros Hc1.
    assert (1 <= inject_Z c).
    { change 1 with (inject_Z 1). by rewrite <- Zle_Qle. }
    rewrite Zlt_Qlt. lra.
Qed.

Variables target_width target_height : Z.
Hypothesis target_width_nonneg : (0 <= target_width)%Z.
Hypothesis target_height_nonneg : (0 <= target_height)%Z.


End ResizeFacts.


(** Without a decoded image, any real resize stops at the debug message
    that reads [input_image.size]. *)
Lemma resize_image_of_metadata_raises
    (fuel : nat) (target_width target_height : Z) (md : ImageMetadata) :
  (target_width, target_height) <> original_size md ->
  MultiaspectImage._resize_image fuel None target_width target_height (Some md)
  = Raise AttributeError.
Proof.
  intros Hne. unfold MultiaspectImage._resize_image.
  destruct md as [[cw ch]]. cbn -[Z.eqb MultiaspectImage.resize_stages].
  destruct ((target_width =? cw) && (target_height =? ch)) eqn:Hsame; [|done].
  apply andb_true_iff in Hsame as [Hsw Hsh].
  apply Z.eqb_eq in Hsw, Hsh. simpl in Hne. congruence.
Qed.

(** C9 asks that [_resize_image] return an output of the target size for
    every current and target size.  The code does not meet it on the
    metadata path: for size-only metadata of 1024 by 1024 and the target
    512 by 512 it raises [AttributeError] instead of returning metadata of
    the target size.  When the sizes already agree, that path returns the
    bare size tuple rather than the metadata it was given. *)
Theorem resize_image_fails_on_size_only_metadata (fuel : nat) :
  MultiaspectImage._resize_image fuel None 512 512
    (Some (mkImageMetadata (1024, 1024))) = Raise AttributeError /\
  MultiaspectImage._resize_image fuel None 512 512
    (Some (mkImageMetadata (512, 512)))
    = Ok (MultiaspectImage.ResizedSize (512, 512)).
Proof. split; reflexivity. Qed.

(* ===================================================================== *)
(** * Further properties of the geometry resolver                        *)
(* ===================================================================== *)

(** X1.  [_round_to_nearest_multiple] returns a positive multiple of the
    alignment; a value of at most one step gives one step, a larger value
    gives a multiple within half a step of it (up to the rounding of the
    float division), and a whole number of steps is returned as it is. *)
Theorem round_to_nearest_multiple_is_nearest (args : Args) (value : Q) :
  let a := aspect_bucket_alignment args in
  0 < a -> (0 <= value)%Q ->
  exists r : Z,
    MultiaspectImage._round_to_nearest_multiple args value = Ok r /\
    a <= r /\ (a | r) /\
    ((value <= inject_Z a)%Q -> r = a) /\
    ((inject_Z a <= value)%Q ->
     (value - inject_Z a * (1 # 2) - value * Float.u64 <= inject_Z r)%Q /\
     (inject_Z r <= value + inject_Z a * (1 # 2) + value * Float.u64)%Q) /\
    (forall k, 0 < k < 2 ^ 52 -> value = inject_Z (k * a) -> r = k * a).
Proof.
  intros a Ha Hv.
  pose proof (round_to_nearest_multiple_eq args Ha value) as He. fold a in He.
  set (k := Float.round (Float.div value (inject_Z a))) in *.
  exists (Z.max (k * a) a). split; [exact He|].
  destruct (round_to_nearest_multiple_aligned args Ha _ _ He) as [Hge Hdiv].
  split; [exact Hge|]. split; [exact Hdiv|].
  assert (Haq : (0 < inject_Z a)%Q).
  { change 0%Q with (inject_Z 0). by rewrite <- Zlt_Qlt. }
  assert (Hq : (0 <= value / inject_Z a)%Q) by (apply Qle_shift_div_l; lra).
  pose proof (fl_bounds _ Hq) as [Hf1 Hf2].
  change (Float.fl (value / inject_Z a)) with (Float.div value (inject_Z a))
    in Hf1, Hf2.
  pose proof (round_bounds (Float.div value (inject_Z a))) as [Hr1 Hr2].
  fold k in Hr1, Hr2.
  assert (Hva : (value / inject_Z a * inject_Z a == value)%Q) by (field; lra).
  set (y := Float.div value (inject_Z a)) in *.
  set (x := (value / inject_Z a)%Q) in *.
  assert (Hya1 : ((x * (1 - Float.u64)) * inject_Z a <= y * inject_Z a)%Q)
    by (apply Qmult_le_compat_r; lra).
  assert (Hya2 : (y * inject_Z a <= (x * (1 + Float.u64)) * inject_Z a)%Q)
    by (apply Qmult_le_compat_r; lra).
  assert (Hka1 : ((y - (1 # 2)) * inject_Z a <= inject_Z k * inject_Z a)%Q)
    by (apply Qmult_le_compat_r; lra).
  assert (Hka2 : (inject_Z k * inject_Z a <= (y + (1 # 2)) * inject_Z a)%Q)
    by (apply Qmult_le_compat_r; lra).
  assert (Hxu : (x * Float.u64 * inject_Z a == value * Float.u64)%Q).
  { unfold x. field. lra. }
  split; [|split].
  - intros Hle.
    assert (Hk : (inject_Z k < inject_Z 2)%Q).
    { change (inject_Z 2) with 2%Q.
      assert (x <= 1)%Q by (apply Qle_shift_div_r; lra).
      unfold Float.u64 in *. lra. }
    rewrite <- Zlt_Qlt in Hk. nia.
  - intros Hge'.
    assert (Hk : (inject_Z 0 < inject_Z k)%Q).
    { change (inject_Z 0) with 0%Q.
      assert (1 <= x)%Q by (apply Qle_shift_div_l; lra).
      unfold Float.u64 in *. lra. }
    rewrite <- Zlt_Qlt in Hk.
    assert (Hmax : Z.max (k * a) a = k * a) by nia.
    rewrite Hmax, inject_Z_mult.
    unfold Float.u64 in *. split; lra.
  - intros k' Hk' ->.
    pose proof (round_to_nearest_multiple_of_multiple args Ha k' Hk') as Hfix.
    fold a in Hfix. rewrite He in Hfix. by injection Hfix.
Qed.

(** The value 1000 with alignment 64. *)
Lemma round_to_nearest_multiple_is_nearest_witness :
  exists r : Z,
    MultiaspectImage._round_to_nearest_multiple Samples.args64 1000 = Ok r /\
    64 <= r /\ (64 | r) /\
    (inject_Z r <= 1000 + inject_Z 64 * (1 # 2) + 1000 * Float.u64)%Q.
Proof.
  destruct (round_to_nearest_multiple_is_nearest Samples.args64 1000)
    as (r & Hr & Hge & Hdiv & _ & Hnear & _).
  - reflexivity.
  - discriminate.
  - exists r. split; [exact Hr|]. split; [exact Hge|]. split; [exact Hdiv|].
    apply Hnear. discriminate.
Defined.


(** ** The float model does not depend on how a rational is written *)

Section FloatInvariance.

Local Open Scope Q_scope.

Lemma ilog2_upper (x : Q) : 0 < x -> x < Float.pow2 (Float.ilog2 x + 1).
Proof.
  intros Hx. unfold Float.ilog2.
  set (n := (Z.log2 (Qnum x) - Z.log2 (Z.pos (Qden x)))%Z).
  destruct (Qle_bool (Float.pow2 n) x) eqn:Hb.
  - destruct x as [p q]. cbn [Qnum Qden] in n.
    assert (Hp : (0 < p)%Z) by (unfold Qlt in Hx; simpl in Hx; lia).
    pose proof (Z.log2_spec p Hp) as [_ Hp2].
    pose proof (Z.log2_spec (Z.pos q) (Pos2Z.is_pos q)) as [Hq1 _].
    pose proof (Z.log2_nonneg p) as Ha.
    pose proof (Z.log2_nonneg (Z.pos q)) as Hb'.
    replace (n + 1)%Z with (Z.succ (Z.log2 p) - Z.log2 (Z.pos q))%Z
      by (subst n; lia).
    unfold Float.pow2. rewrite Qpower_minus by lra.
    rewrite <- !(Zpower_Qpower 2) by lia.
    rewrite (Qmake_Qdiv p q).
    set (A := (2 ^ Z.succ (Z.log2 p))%Z) in *.
    set (B := (2 ^ Z.log2 (Z.pos q))%Z) in *.
    assert (HB : (0 < B)%Z) by lia.
    apply Qlt_shift_div_r.
    { change 0 with (inject_Z 0). rewrite <- Zlt_Qlt. lia. }
    unfold Qdiv. rewrite <- Qmult_assoc, (Qmult_comm (/ _)), Qmult_assoc.
    apply Qlt_shift_div_l.
    { change 0 with (inject_Z 0). rewrite <- Zlt_Qlt. lia. }
    rewrite <- !inject_Z_mult, <- Zlt_Qlt. nia.
  - replace (n - 1 + 1)%Z with n by lia.
    apply Qnot_le_lt. intros Hle. apply Qle_bool_iff in Hle. congruence.
Qed.

Lemma ilog2_unique (x : Q) (n : Z) :
  Float.pow2 n <= x -> x < Float.pow2 (n + 1) -> Float.ilog2 x = n.
Proof.
  intros Hlo Hhi.
  assert (Hx : 0 < x) by (pose proof (pow2_pos n); lra).
  pose proof (ilog2_lower x Hx) as Hl.
  pose proof (ilog2_upper x Hx) as Hu.
  set (l := Float.ilog2 x) in *.
  assert (H1 : (n < l + 1)%Z).
  { apply (Qpower_lt_compat_l_inv 2); [|lra]. unfold Float.pow2 in *. lra. }
  assert (H2 : (l < n + 1)%Z).
  { apply (Qpower_lt_compat_l_inv 2); [|lra]. unfold Float.pow2 in *. lra. }
  lia.
Qed.

Lemma ilog2_proper (x y : Q) : 0 < x -> x == y -> Float.ilog2 x = Float.ilog2 y.
Proof.
  intros Hx Hxy. apply ilog2_unique.
  - rewrite Hxy. apply ilog2_lower. lra.
  - rewrite Hxy. apply ilog2_upper. lra.
Qed.

Lemma round_proper (x y : Q) : x == y -> Float.round x = Float.round y.
Proof.
  intros Hxy. unfold Float.round. cbv zeta.
  rewrite (Qfloor_comp x y Hxy).
  assert (Hc : (x - inject_Z (Qfloor y) ?= 1 # 2)
               = (y - inject_Z (Qfloor y) ?= 1 # 2)).
  { apply Qcompare_comp; [by rewrite Hxy|reflexivity]. }
  by rewrite Hc.
Qed.

Lemma fl_proper (x y : Q) : x == y -> Float.fl x = Float.fl y.
Proof.
  intros Hxy. unfold Float.fl.
  assert (Hz : Qeq_bool x 0 = Qeq_bool y 0) by (by rewrite Hxy).
  rewrite <- Hz. destruct (Qeq_bool x 0) eqn:E; [done|].
  apply Qeq_bool_neq in E.
  assert (Habs : 0 < Qabs x).
  { destruct (Qlt_le_dec x 0) as [Hneg|Hpos].
    - rewrite (Qabs_neg x) by lra. lra.
    - rewrite (Qabs_pos x) by lra. lra. }
  rewrite (ilog2_proper (Qabs x) (Qabs y) Habs) by (by rewrite Hxy).
  set (e := (Float.ilog2 (Qabs y) - 52)%Z).
  rewrite (round_proper (x / Float.pow2 e) (y / Float.pow2 e)) by (by rewrite Hxy).
  reflexivity.
Qed.

End FloatInvariance.

(** Inversion of a successful run of a chain of [let!]. *)
Ltac bind_inv H :=
  match type of H with
  | bind ?r _ = Ok _ =>
      let E := fresh "E" in
      destruct r eqn:E; cbn [bind] in H; [|discriminate H..]
  end;
  repeat match type of H with
         | (let '(_, _) := ?p in _) = _ => destruct p
         end.

(** X2.  [calculate_image_aspect_ratio] of a size only depends on the
    proportion of width to height: sizes with [w1 * h2 = w2 * h1] get the
    same rounded ratio, and a square size gets exactly 1. *)
Theorem aspect_ratio_depends_on_proportion
    (args : Args) (w1 h1 w2 h2 : Z) :
  h1 <> 0 -> h2 <> 0 -> w1 * h2 = w2 * h1 ->
  MultiaspectImage.calculate_image_aspect_ratio args
    (MultiaspectImage.FromTuple (w1, h1))
  = MultiaspectImage.calculate_image_aspect_ratio args
      (MultiaspectImage.FromTuple (w2, h2)) /\
  (w1 = h1 -> 0 <= default 2 (aspect_bucket_rounding args) ->
   MultiaspectImage.calculate_image_aspect_ratio args
     (MultiaspectImage.FromTuple (w1, h1)) = Ok 1%Q).
Proof.
  intros Hh1 Hh2 Hprop.
  assert (Hq1 : ~ (inject_Z h1 == 0)%Q).
  { change 0%Q with (inject_Z 0). rewrite inject_Z_injective. done. }
  assert (Hq2 : ~ (inject_Z h2 == 0)%Q).
  { change 0%Q with (inject_Z 0). rewrite inject_Z_injective. done. }
  unfold MultiaspectImage.calculate_image_aspect_ratio.
  destruct (Z.eqb_spec h1 0) as [?|_]; [done|].
  destruct (Z.eqb_spec h2 0) as [?|_]; [done|].
  split.
  - f_equal. f_equal. unfold Float.div. apply fl_proper.
    apply (Qmult_inj_r _ _ (inject_Z h1 * inject_Z h2)).
    { intros H0. apply Qmult_integral in H0. tauto. }
    transitivity (inject_Z (w1 * h2)); [rewrite inject_Z_mult; field; done|].
    rewrite Hprop, inject_Z_mult. field. done.
  - intros -> Hn. f_equal.
    set (n := default 2 (aspect_bucket_rounding args)) in *.
    unfold Float.div, Float.round_ndigits.
    rewrite (fl_proper (inject_Z h1 / inject_Z h1) 1) by (field; done).
    change (Float.fl 1) with 1%Q.
    assert (Hs : (1 * 10 ^ n == inject_Z (10 ^ n))%Q).
    { rewrite Zpower_Qpower by done. change (inject_Z 10) with 10%Q. ring. }
    rewrite (round_proper _ _ Hs).
    assert (Hr : Float.round (inject_Z (10 ^ n)) = 10 ^ n).
    { unfold Float.round. rewrite Qfloor_Z.
      assert (Hc : (inject_Z (10 ^ n) - inject_Z (10 ^ n) ?= 1 # 2)%Q = Lt).
      { rewrite <- Qlt_alt. set (z := inject_Z (10 ^ n)). lra. }
      by rewrite Hc. }
    rewrite Hr.
    rewrite (fl_proper (inject_Z (10 ^ n) / 10 ^ n) 1).
    + reflexivity.
    + rewrite Zpower_Qpower by done. change (inject_Z 10) with 10%Q.
      field. apply Qpower_not_0. lra.
Qed.

(** 1920 by 1080 and 1280 by 720. *)
Lemma aspect_ratio_depends_on_proportion_witness :
  MultiaspectImage.calculate_image_aspect_ratio Samples.args64
    (MultiaspectImage.FromTuple (1920, 1080))
  = MultiaspectImage.calculate_image_aspect_ratio Samples.args64
      (MultiaspectImage.FromTuple (1280, 720)).
Proof.
  apply (aspect_ratio_depends_on_proportion Samples.args64 1920 1080 1280 720);
    [discriminate|discriminate|reflexivity].
Defined.

(* ===================================================================== *)
(** * Further properties of [prepare_image]                               *)
(* ===================================================================== *)

Section PrepareFacts.

Import MultiaspectImage.

Variable args : Args.
Variable backend_config : string -> BackendConfig.
Variable crop_handlers :
  string -> option Image -> option ImageMetadata -> Z -> Z ->
  option Image * (Z * Z).

(** With pixels, whatever [_resize_image] returns is an image of the
    target size. *)
Lemma resize_image_of_pixels_result (fuel : nat) (im : Image) (tw th : Z)
    (r : resized) :
  _resize_image fuel (Some im) tw th None = Ok r ->
  exists out, r = ResizedImage out /\ img_size out = (tw, th).
Proof.
  unfold _resize_image, convert_rgb.
  cbn -[Z.eqb resize_stages].
  destruct ((tw =? img_width im) && (th =? img_height im)) eqn:Hsame.
  - intros [= <-]. exists im. split; [done|].
    apply andb_true_iff in Hsame as [Hw Hh]. apply Z.eqb_eq in Hw, Hh.
    unfold img_size. congruence.
  - cbn -[Z.eqb resize_stages]. intros H. bind_inv H. injection H as <-.
    eauto.
Qed.

(** What a returning run of [prepare_image_locals] went through. *)
Lemma prepare_image_locals_inv (fuel : nat) (resolution : Q)
    (image : option Image) (image_metadata : option ImageMetadata)
    (resolution_type id : string) (l : prepare_locals) :
  prepare_image_locals args backend_config crop_handlers fuel
    resolution image image_metadata resolution_type id = Ok l ->
  exists image' image_size original_resolution resolution' ar first,
    derive_image_size image image_metadata = Ok (image', image_size) /\
    _round_to_nearest_multiple args
      (if String.eqb resolution_type "area"
       then Float.mul resolution 1000 else resolution)
      = Ok original_resolution /\
    Policy.oversized_policy (backend_config id) image_size resolution
      resolution_type = Ok (resolution', pl_downsample_before_crop l) /\
    calculate_image_aspect_ratio args (FromTuple image_size) = Ok ar /\
    calculate_new_size args fuel resolution_type ar resolution' = Ok first /\
    (pl_downsample_before_crop l = false ->
     first = (pl_target_width l, pl_target_height l, pl_new_aspect_ratio l)) /\
    (pl_downsample_before_crop l = true -> is_Some image') /\
    (crop (backend_config id) = true ->
     known_crop_style (crop_style (backend_config id)) = true) /\
    (crop (backend_config id) = false ->
     pl_crop_coordinates l = (0, 0) /\
     match image' with
     | Some _ =>
         exists out, pl_image l = Some out /\
           img_size out = (pl_target_width l, pl_target_height l)
     | None => pl_image l = None
     end).
Proof.
  unfold prepare_image_locals. intros Hrun.
  destruct (derive_image_size image image_metadata)
    as [[image' [ow oh]]| |] eqn:Hsize; cbn [bind] in Hrun; [|discriminate..].
  destruct (_round_to_nearest_multiple args _)
    as [orr| |] eqn:Horr in Hrun; cbn [bind] in Hrun; [|discriminate..].
  match type of Hrun with
  | bind ?r _ = _ =>
      change r with (Policy.oversized_policy (backend_config id) (ow, oh)
                       resolution resolution_type) in Hrun
  end.
  destruct (Policy.oversized_policy _ _ _ _) as [[res' flag]| |] eqn:Hpolicy;
    cbn [bind] in Hrun; [|discriminate..].
  destruct (calculate_image_aspect_ratio args _)
    as [ar| |] eqn:Har in Hrun; cbn [bind] in Hrun; [|discriminate..].
  destruct (calculate_new_size args fuel resolution_type ar res')
    as [[[tw th] nar]| |] eqn:Hfirst; cbn [bind] in Hrun; [|discriminate..].
  match type of Hrun with
  | bind ?r _ = _ => destruct r as [?| |]
  end; cbn [bind] in Hrun; [|discriminate..].
  exists image', (ow, oh), orr, res', ar, (tw, th, nar).
  destruct (crop (backend_config id)) eqn:Hcrop.
  - (* cropping *)
    destruct (known_crop_style _) eqn:Hstyle; [|discriminate]. cbn [negb] in Hrun.
    destruct flag.
    + bind_inv Hrun. injection Hrun as <-. cbn.
      repeat split; try done.
      destruct image'; [eauto|discriminate E].
    + cbn [bind] in Hrun.
      destruct (String.eqb (crop_aspect _) _) in Hrun;
        injection Hrun as <-; cbn; repeat split; done.
  - (* no cropping *)
    assert (flag = false) as ->.
    { unfold Policy.oversized_policy in Hpolicy. rewrite Hcrop in Hpolicy.
      simpl in Hpolicy. congruence. }
    bind_inv Hrun. injection Hrun as <-. cbn.
    repeat split; try done.
    destruct image' as [im|].
    + bind_inv E.
      apply resize_image_of_pixels_result in E0 as (out & -> & Hout).
      injection E as <-. eauto.
    + by injection E as <-.
Qed.

End PrepareFacts.

(** X3.  Without cropping, [prepare_image] returns crop coordinates (0, 0) and
    the target computed from the rounded aspect ratio of the source and
    the requested resolution: an image of exactly that size when it was
    given pixels, the size itself when it was given metadata only. *)
Theorem prepare_image_without_crop_returns_target
    (args : Args) (backend_config : string -> BackendConfig)
    (crop_handlers :
       string -> option Image -> option ImageMetadata -> Z -> Z ->
       option Image * (Z * Z))
    (fuel : nat) (resolution : Q)
    (image : option Image) (image_metadata : option ImageMetadata)
    (resolution_type id : string)
    (first : MultiaspectImage.prepared) (crop_coordinates : Z * Z)
    (new_aspect_ratio : Q) :
  crop (backend_config id) = false ->
  MultiaspectImage.prepare_image args backend_config crop_handlers fuel
    resolution image image_metadata resolution_type id
    = Ok (first, crop_coordinates, new_aspect_ratio) ->
  crop_coordinates = (0, 0) /\
  exists image' image_size ar target_width target_height,
    MultiaspectImage.derive_image_size image image_metadata
      = Ok (image', image_size) /\
    MultiaspectImage.calculate_image_aspect_ratio args
      (MultiaspectImage.FromTuple image_size) = Ok ar /\
    MultiaspectImage.calculate_new_size args fuel resolution_type ar resolution
      = Ok (target_width, target_height, new_aspect_ratio) /\
    match first with
    | MultiaspectImage.PreparedImage out =>
        is_Some image /\ img_size out = (target_width, target_height)
    | MultiaspectImage.PreparedSize wh =>
        image = None /\ wh = (target_width, target_height)
    end.
Proof.
  intros Hcrop Hrun. unfold MultiaspectImage.prepare_image in Hrun.
  bind_inv Hrun. rename a into l.
  destruct (prepare_image_locals_inv _ _ _ _ _ _ _ _ _ _ E)
    as (image' & size & orr & res' & ar & first_target & Hsize & _ & Hpolicy
        & Har & Hfirst & Hflag & _ & _ & Hnocrop).
  destruct (Hnocrop Hcrop) as [Hcoords Himage].
  unfold Policy.oversized_policy in Hpolicy. rewrite Hcrop in Hpolicy.
  cbn in Hpolicy. injection Hpolicy as <- Hf. symmetry in Hf.
  rewrite (Hflag Hf) in Hfirst.
  assert (Hnone : image' = None -> image = None).
  { intros ->. unfold MultiaspectImage.derive_image_size in Hsize.
    destruct image; [discriminate|done]. }
  assert (Hsome : is_Some image' -> is_Some image).
  { intros [im ->]. unfold MultiaspectImage.derive_image_size in Hsize.
    destruct image; [eauto|]. by destruct image_metadata. }
  destruct image' as [im|].
  - destruct Himage as (out & Hout & Hsz). rewrite Hout in Hrun.
    injection Hrun as <- <- <-. split; [done|].
    exists (Some im), size, ar, (MultiaspectImage.pl_target_width l),
      (MultiaspectImage.pl_target_height l). eauto 10.
  - rewrite Himage in Hrun. injection Hrun as <- <- <-. split; [done|].
    exists None, size, ar, (MultiaspectImage.pl_target_width l),
      (MultiaspectImage.pl_target_height l). eauto 10.
Qed.

(** The photograph at 1024 pixels on a backend that does not crop. *)
Lemma prepare_image_without_crop_returns_target_witness :
  exists image' image_size ar target_width target_height,
    MultiaspectImage.derive_image_size (Some Samples.photo_3000x2000) None
      = Ok (image', image_size) /\
    MultiaspectImage.calculate_image_aspect_ratio Samples.args64
      (MultiaspectImage.FromTuple image_size) = Ok ar /\
    MultiaspectImage.calculate_new_size Samples.args64 100 "pixel" ar 1024
      = Ok (target_width, target_height, 3 # 2)%Q /\
    img_size (mkImage 1536 1024 1) = (target_width, target_height).
Proof.
  destruct (prepare_image_without_crop_returns_target Samples.args64
              MoreSamples.plain_backend Samples.corner_crop 100 1024
              (Some Samples.photo_3000x2000) None "pixel" "photos"
              (MultiaspectImage.PreparedImage (mkImage 1536 1024 1))
              (0, 0) (3 # 2)%Q)
    as [_ (image' & size & ar & tw & th & H1 & H2 & H3 & _ & H4)].
  - reflexivity.
  - vm_compute. reflexivity.
  - exists image', size, ar, tw, th. repeat split; assumption.
Defined.

(** X4.  For a resolution type other than "pixel" and "area", [prepare_image]
    raises an exception, whatever the other arguments are: no size is
    computed, nothing is resized or cropped. *)
Theorem prepare_image_rejects_unknown_resolution_type
    (args : Args) (backend_config : string -> BackendConfig)
    (crop_handlers :
       string -> option Image -> option ImageMetadata -> Z -> Z ->
       option Image * (Z * Z))
    (fuel : nat) (resolution : Q)
    (image : option Image) (image_metadata : option ImageMetadata)
    (resolution_type id : string) :
  resolution_type <> "pixel" -> resolution_type <> "area" ->
  exists e,
    MultiaspectImage.prepare_image args backend_config crop_handlers fuel
      resolution image image_metadata resolution_type id = Raise e.
Proof.
  intros Hp Ha. apply String.eqb_neq in Hp, Ha.
  unfold MultiaspectImage.prepare_image, MultiaspectImage.prepare_image_locals.
  destruct (MultiaspectImage.derive_image_size image image_metadata)
    as [[image' [ow oh]]|e|] eqn:Hs; cbn [bind]; [|eauto|].
  2: { destruct image, image_metadata; discriminate. }
  rewrite Ha. unfold MultiaspectImage._round_to_nearest_multiple at 1.
  destruct (aspect_bucket_alignment args =? 0); cbn [bind]; [eauto|].
  unfold MultiaspectImage.is_image_too_large. rewrite Hp, Ha.
  destruct (_ && _ && _); cbn [bind]; [eauto|].
  unfold MultiaspectImage.calculate_image_aspect_ratio at 1.
  destruct (oh =? 0); cbn [bind]; [eauto|].
  unfold MultiaspectImage.calculate_new_size. rewrite Hp, Ha. cbn [bind]. eauto.
Qed.

(** The photograph with the resolution type "percent". *)
Lemma prepare_image_rejects_unknown_resolution_type_witness :
  exists e,
    MultiaspectImage.prepare_image Samples.args64 MoreSamples.plain_backend
      Samples.corner_crop 100 1024 (Some Samples.photo_3000x2000) None
      "percent" "photos" = Raise e.
Proof.
  apply (prepare_image_rejects_unknown_resolution_type Samples.args64
           MoreSamples.plain_backend Samples.corner_crop 100 1024
           (Some Samples.photo_3000x2000) None "percent" "photos");
    discriminate.
Defined.

(** X5.  With cropping enabled, [prepare_image] does not return for a crop
    style other than "corner", "centre", "center" and "random". *)
Theorem prepare_image_rejects_unknown_crop_style
    (args : Args) (backend_config : string -> BackendConfig)
    (crop_handlers :
       string -> option Image -> option ImageMetadata -> Z -> Z ->
       option Image * (Z * Z))
    (fuel : nat) (resolution : Q)
    (image : option Image) (image_metadata : option ImageMetadata)
    (resolution_type id : string) :
  crop (backend_config id) = true ->
  crop_style (backend_config id) ∉ ["corner"; "centre"; "center"; "random"] ->
  forall v,
    MultiaspectImage.prepare_image args backend_config crop_handlers fuel
      resolution image image_metadata resolution_type id <> Ok v.
Proof.
  intros Hcrop Hstyle v Hrun. unfold MultiaspectImage.prepare_image in Hrun.
  bind_inv Hrun.
  destruct (prepare_image_locals_inv _ _ _ _ _ _ _ _ _ _ E)
    as (image' & size & orr & res' & ar & first_target & _ & _ & _
        & _ & _ & _ & _ & Hknown & _).
  specialize (Hknown Hcrop). unfold MultiaspectImage.known_crop_style in Hknown.
  by apply bool_decide_eq_true in Hknown.
Qed.

(** The photograph on a backend with the crop style "top-left". *)
Lemma prepare_image_rejects_unknown_crop_style_witness :
  MultiaspectImage.prepare_image Samples.args64
    MoreSamples.unknown_style_backend Samples.corner_crop 100 1024
    (Some Samples.photo_3000x2000) None "pixel" "photos"
  <> Ok (MultiaspectImage.PreparedImage (mkImage 1024 1024 1), (0, 0), 1%Q).
Proof.
  apply (prepare_image_rejects_unknown_crop_style Samples.args64
           MoreSamples.unknown_style_backend Samples.corner_crop 100 1024
           (Some Samples.photo_3000x2000) None "pixel" "photos").
  - reflexivity.
  - apply (bool_decide_unpack _). vm_compute. exact I.
Defined.

(** X6.  With size-only metadata, [prepare_image] does not return when the
    oversized-source policy applies: the branch reads [image.size]. *)
Theorem prepare_image_of_metadata_fails_when_oversized
    (args : Args) (backend_config : string -> BackendConfig)
    (crop_handlers :
       string -> option Image -> option ImageMetadata -> Z -> Z ->
       option Image * (Z * Z))
    (fuel : nat) (resolution resolution' : Q) (md : ImageMetadata)
    (resolution_type id : string) :
  Policy.oversized_policy (backend_config id) (original_size md) resolution
    resolution_type = Ok (resolution', true) ->
  forall v,
    MultiaspectImage.prepare_image args backend_config crop_handlers fuel
      resolution None (Some md) resolution_type id <> Ok v.
Proof.
  intros Hpol v Hrun. unfold MultiaspectImage.prepare_image in Hrun.
  bind_inv Hrun.
  destruct (prepare_image_locals_inv _ _ _ _ _ _ _ _ _ _ E)
    as (image' & size & orr & res' & ar & first_target & Hsize & _ & Hpolicy
        & _ & _ & _ & Hsome & _).
  cbn in Hsize. injection Hsize as <- <-.
  rewrite <- surjective_pairing in Hpolicy. rewrite Hpol in Hpolicy.
  injection Hpolicy as _ Hflag. symmetry in Hflag.
  destruct (Hsome Hflag) as [? [=]].
Qed.

(** The size 3000 by 2000 on a backend that shrinks sources with an edge
    above 2048 pixels. *)
Lemma prepare_image_of_metadata_fails_when_oversized_witness :
  MultiaspectImage.prepare_image Samples.args64 Samples.pixel_backend
    Samples.corner_crop 100 1024 None (Some MoreSamples.size_3000x2000)
    "pixel" "photos"
  <> Ok (MultiaspectImage.PreparedSize (1536, 1024), (0, 0), (3 # 2)%Q).
Proof.
  apply (prepare_image_of_metadata_fails_when_oversized Samples.args64
           Samples.pixel_backend Samples.corner_crop 100 1024 1024
           MoreSamples.size_3000x2000 "pixel" "photos").
  vm_compute. reflexivity.
Defined.

(** X7.  Given the pixels of a source or only its size, [prepare_image]
    computes the same target and the same new aspect ratio whenever both
    runs return. *)
Theorem prepare_image_paths_agree_on_target
    (args : Args) (backend_config : string -> BackendConfig)
    (crop_handlers :
       string -> option Image -> option ImageMetadata -> Z -> Z ->
       option Image * (Z * Z))
    (fuel : nat) (resolution : Q) (im : Image) (md : ImageMetadata)
    (resolution_type id : string)
    (with_pixels with_size : MultiaspectImage.prepare_locals) :
  original_size md = img_size (exif_transpose im) ->
  MultiaspectImage.prepare_image_locals args backend_config crop_handlers fuel
    resolution (Some im) None resolution_type id = Ok with_pixels ->
  MultiaspectImage.prepare_image_locals args backend_config crop_handlers fuel
    resolution None (Some md) resolution_type id = Ok with_size ->
  MultiaspectImage.pl_target_width with_pixels
    = MultiaspectImage.pl_target_width with_size /\
  MultiaspectImage.pl_target_height with_pixels
    = MultiaspectImage.pl_target_height with_size /\
  MultiaspectImage.pl_new_aspect_ratio with_pixels
    = MultiaspectImage.pl_new_aspect_ratio with_size.
Proof.
  intros Hsame H1 H2.
  destruct (prepare_image_locals_inv _ _ _ _ _ _ _ _ _ _ H1)
    as (i1 & s1 & o1 & r1 & a1 & f1 & Hs1 & _ & Hp1 & Ha1 & Hf1 & Hfl1 & _).
  destruct (prepare_image_locals_inv _ _ _ _ _ _ _ _ _ _ H2)
    as (i2 & s2 & o2 & r2 & a2 & f2 & Hs2 & _ & Hp2 & Ha2 & Hf2 & Hfl2
        & Hsome2 & _).
  cbn in Hs1, Hs2. injection Hs1 as <- <-. injection Hs2 as <- <-.
  rewrite <- surjective_pairing, Hsame in Hp2, Ha2.
  unfold convert_rgb in *.
  rewrite Hp1 in Hp2. injection Hp2 as <- Hflag.
  rewrite Ha1 in Ha2. injection Ha2 as <-.
  rewrite Hf1 in Hf2. injection Hf2 as <-.
  destruct (MultiaspectImage.pl_downsample_before_crop with_size) eqn:Hd2.
  { destruct (Hsome2 eq_refl) as [? [=]]. }
  rewrite Hflag in Hfl1.
  specialize (Hfl1 eq_refl). specialize (Hfl2 eq_refl).
  rewrite Hfl1 in Hfl2. by injection Hfl2 as -> -> ->.
Qed.

(** The photograph and its size, at 1024 pixels with a centre crop. *)
Lemma prepare_image_paths_agree_on_target_witness :
  MultiaspectImage.pl_target_width MoreSamples.locals_with_pixels
    = MultiaspectImage.pl_target_width MoreSamples.locals_with_size /\
  MultiaspectImage.pl_target_height MoreSamples.locals_with_pixels
    = MultiaspectImage.pl_target_height MoreSamples.locals_with_size /\
  MultiaspectImage.pl_new_aspect_ratio MoreSamples.locals_with_pixels
    = MultiaspectImage.pl_new_aspect_ratio MoreSamples.locals_with_size.
Proof.
  apply (prepare_image_paths_agree_on_target Samples.args64
           Samples.area_backend_unbounded Samples.corner_crop 100 1024
           Samples.photo_3000x2000 MoreSamples.size_3000x2000
           "pixel" "photos").
  - reflexivity.
  - vm_compute. reflexivity.
  - vm_compute. reflexivity.
Defined.

(** ** Sources whose aspect ratio rounds to zero *)

Section ZeroAspect.

Import MultiaspectImage.

Local Open Scope Q_scope.

Lemma fl_zero (x : Q) : x == 0 -> Float.fl x = 0.
Proof. intros Hx. by rewrite (fl_proper x 0 Hx). Qed.

(** Both resolvers raise [ZeroDivisionError] for an aspect ratio of zero. *)
Lemma resolvers_reject_zero_aspect_ratio (args : Args) (fuel : nat)
    (aspect_ratio resolution : Q) :
  aspect_ratio == 0 ->
  calculate_new_size_by_pixel_edge args fuel aspect_ratio resolution
    = Raise ZeroDivisionError /\
  calculate_new_size_by_pixel_area args fuel aspect_ratio resolution
    = Raise ZeroDivisionError.
Proof.
  intros Hz.
  assert (H1 : Float.ltb 1 aspect_ratio = false) by (apply ltb_false_iff; lra).
  assert (H2 : Float.ltb aspect_ratio 1 = true) by (apply ltb_true_iff; lra).
  assert (H3 : Qeq_bool aspect_ratio 0 = true) by (by apply Qeq_bool_iff).
  assert (H4 : Qeq_bool aspect_ratio 1 = false).
  { destruct (Qeq_bool aspect_ratio 1) eqn:E; [|done].
    apply Qeq_bool_iff in E. lra. }
  split.
  - unfold calculate_new_size_by_pixel_edge. by rewrite H1, H2, H3.
  - unfold calculate_new_size_by_pixel_area. rewrite H4, H3. cbn [andb].
    unfold round_sqrt, Float.mul.
    rewrite (fl_zero (total_pixels_of resolution * aspect_ratio)) by (rewrite Hz; ring).
    reflexivity.
Qed.

(** The ratio of a size that is at least 201 times as high as wide rounds
    to 0.0 at two decimals. *)
Lemma aspect_ratio_of_tall_size (args : Args) (w h : Z) :
  default 2%Z (aspect_bucket_rounding args) = 2%Z ->
  (0 <= w)%Z -> (201 * w <= h)%Z -> (0 < h)%Z ->
  calculate_image_aspect_ratio args (FromTuple (w, h)) = Ok 0.
Proof.
  intros Hn Hw Hwh Hh. unfold calculate_image_aspect_ratio. rewrite Hn.
  destruct (Z.eqb_spec h 0) as [?|_]; [lia|]. f_equal.
  unfold Float.round_ndigits, Float.div.
  assert (Hwq : 0 <= inject_Z w).
  { change 0 with (inject_Z 0). by rewrite <- Zle_Qle. }
  assert (Hhq : 0 < inject_Z h).
  { change 0 with (inject_Z 0). by rewrite <- Zlt_Qlt. }
  assert (Hwhq : 201 * inject_Z w <= inject_Z h).
  { change 201 with (inject_Z 201). rewrite <- inject_Z_mult, <- Zle_Qle. done. }
  set (x := inject_Z w / inject_Z h).
  assert (Hx0 : 0 <= x) by (apply Qle_shift_div_l; lra).
  assert (Hx1 : x <= 1 # 201) by (apply Qle_shift_div_r; lra).
  pose proof (fl_bounds x Hx0) as [Hf1 Hf2].
  pose proof (round_bounds (Float.fl x * 10 ^ 2)) as [Hr1 Hr2].
  change (10 ^ 2) with 100 in *.
  assert (Hr : Float.round (Float.fl x * 100) = 0%Z).
  { unfold Float.u64 in *.
    assert (inject_Z (-1) < inject_Z (Float.round (Float.fl x * 100)))
      by (change (inject_Z (-1)) with (-1); lra).
    assert (inject_Z (Float.round (Float.fl x * 100)) < inject_Z 1)
      by (change (inject_Z 1) with 1; lra).
    rewrite <- Zlt_Qlt in *. lia. }
  rewrite Hr. reflexivity.
Qed.

End ZeroAspect.

(** X8.  A source that is at least 201 times as high as wide has the rounded
    aspect ratio 0.0, and [prepare_image] raises [ZeroDivisionError] for
    it in pixel mode and in area mode. *)
Theorem prepare_image_fails_on_very_tall_source
    (args : Args) (backend_config : string -> BackendConfig)
    (crop_handlers :
       string -> option Image -> option ImageMetadata -> Z -> Z ->
       option Image * (Z * Z))
    (fuel : nat) (resolution : Q)
    (image image' : option Image) (image_metadata : option ImageMetadata)
    (w h : Z) (resolution_type id : string) :
  resolution_type = "pixel" \/ resolution_type = "area" ->
  default 2 (aspect_bucket_rounding args) = 2 ->
  MultiaspectImage.derive_image_size image image_metadata = Ok (image', (w, h)) ->
  0 <= w -> 0 < h -> 201 * w <= h ->
  MultiaspectImage.prepare_image args backend_config crop_handlers fuel
    resolution image image_metadata resolution_type id
  = Raise ZeroDivisionError.
Proof.
  intros Htype Hn Hsize Hw Hh Hwh.
  unfold MultiaspectImage.prepare_image, MultiaspectImage.prepare_image_locals.
  rewrite Hsize. cbn [bind].
  unfold MultiaspectImage._round_to_nearest_multiple at 1.
  destruct (aspect_bucket_alignment args =? 0); [reflexivity|]. cbn [bind].
  match goal with
  | |- bind (bind ?r _) _ = _ =>
      assert (Hpol : exists p, r = Ok p)
  end.
  { unfold MultiaspectImage.is_image_too_large.
    destruct (_ && _ && _); [|eauto].
    destruct Htype as [-> | ->]; cbn [String.eqb Ascii.eqb Bool.eqb bind];
      match goal with |- context [if ?b then _ else _] => destruct b end; eauto. }
  destruct Hpol as [[res' flag] ->]. cbn [bind].
  rewrite (aspect_ratio_of_tall_size args w h Hn Hw Hwh Hh). cbn [bind].
  destruct (resolvers_reject_zero_aspect_ratio args fuel 0 res') as [He Ha];
    [reflexivity|].
  unfold MultiaspectImage.calculate_new_size.
  destruct Htype as [-> | ->]; cbn [String.eqb Ascii.eqb Bool.eqb].
  - by rewrite He.
  - by rewrite Ha.
Qed.

(** A strip of 5 by 1005 pixels. *)
Lemma prepare_image_fails_on_very_tall_source_witness :
  MultiaspectImage.prepare_image Samples.args64 MoreSamples.plain_backend
    Samples.corner_crop 100 1024 (Some MoreSamples.strip_5x1005) None
    "pixel" "photos"
  = Raise ZeroDivisionError.
Proof.
  apply (prepare_image_fails_on_very_tall_source Samples.args64
           MoreSamples.plain_backend Samples.corner_crop 100 1024
           (Some MoreSamples.strip_5x1005) (Some MoreSamples.strip_5x1005)
           None 5 1005 "pixel" "photos").
  - left. reflexivity.
  - reflexivity.
  - reflexivity.
  - lia.
  - lia.
  - lia.
Defined.

(* ===================================================================== *)
(** * Further properties of the resize engine                             *)
(* ===================================================================== *)

(** X11.  The staged reduction of a source that is at least as large as the
    target: the sizes never grow from one stage to the next, and the size
    that is handed to the final exact resize exceeds 1.5 times the target
    in neither dimension. *)
Theorem resize_stages_shrink_to_within_factor
    (fuel : nat) (target_width target_height : Z) :
  forall (current_width current_height : Z) (stages : list (Z * Z)),
    0 <= target_width <= current_width ->
    0 <= target_height <= current_height ->
    MultiaspectImage.resize_stages fuel target_width target_height
      current_width current_height = Ok stages ->
    let sizes := (current_width, current_height) :: stages in
    (forall i a b, sizes !! i = Some a -> sizes !! S i = Some b ->
       b.1 <= a.1 /\ b.2 <= a.2) /\
    (forall wh, last sizes = Some wh ->
       (inject_Z wh.1 <= Float.mul (Float.of_int target_width) (3 # 2))%Q /\
       (inject_Z wh.2 <= Float.mul (Float.of_int target_height) (3 # 2))%Q).
Proof.
  induction fuel as [|fuel IH]; intros cw ch stages Hw Hh Hrun;
    cbn [MultiaspectImage.resize_stages] in Hrun;
    destruct (Float.ltb (Float.mul (Float.of_int target_width) (3 # 2)) (inject_Z cw)
              || Float.ltb (Float.mul (Float.of_int target_height) (3 # 2))
                   (inject_Z ch)) eqn:Hc; try discriminate.
  - injection Hrun as <-. apply orb_false_iff in Hc as [Hc1 Hc2].
    apply ltb_false_iff in Hc1, Hc2. split.
    + intros i a b _ Hb. by destruct i.
    + intros wh [= <-]. done.
  - bind_inv Hrun. injection Hrun as <-.
    set (iw := Z.max (Float.trunc (Float.mul (Float.of_int cw) (3 # 4)))
                 target_width) in *.
    set (ih := Z.max (Float.trunc (Float.mul (Float.of_int ch) (3 # 4)))
                 target_height) in *.
    pose proof (shrink_upper cw ltac:(lia)) as [Hsw _].
    pose proof (shrink_upper ch ltac:(lia)) as [Hsh _].
    destruct (IH iw ih a ltac:(lia) ltac:(lia) E) as [Hmono Hlast].
    split.
    + intros [|i] x y Hx Hy.
      * injection Hx as <-. injection Hy as <-. simpl. lia.
      * exact (Hmono i x y Hx Hy).
    + intros wh Hl. apply Hlast. exact Hl.
  - injection Hrun as <-. apply orb_false_iff in Hc as [Hc1 Hc2].
    apply ltb_false_iff in Hc1, Hc2. split.
    + intros i a b _ Hb. by destruct i.
    + intros wh [= <-]. done.
Qed.

(** From 3000 by 2000 down to 1024 by 704. *)
Lemma resize_stages_shrink_to_within_factor_witness :
  let sizes := [(3000, 2000); (2250, 1500); (1687, 1125); (1265, 843)] in
  (forall i a b, sizes !! i = Some a -> sizes !! S i = Some b ->
     b.1 <= a.1 /\ b.2 <= a.2) /\
  (forall wh, last sizes = Some wh ->
     (inject_Z wh.1 <= Float.mul (Float.of_int 1024) (3 # 2))%Q /\
     (inject_Z wh.2 <= Float.mul (Float.of_int 704) (3 # 2))%Q).
Proof.
  apply (resize_stages_shrink_to_within_factor 100 1024 704 3000 2000
           [(2250, 1500); (1687, 1125); (1265, 843)]).
  - lia.
  - lia.
  - vm_compute. reflexivity.
Defined.

(* ===================================================================== *)
(** * Further properties of the bucket index store                        *)
(* ===================================================================== *)

Section MappingFacts.

Import DreamBoothDataset LegacyDataset.

Lemma extends_mapping_refl (m : gmap string (list string)) :
  extends_mapping m m.
Proof. intros key files H. exists []. by rewrite app_nil_r. Qed.

Lemma extends_mapping_trans (m1 m2 m3 : gmap string (list string)) :
  extends_mapping m1 m2 -> extends_mapping m2 m3 -> extends_mapping m1 m3.
Proof.
  intros H12 H23 key files H1.
  destruct (H12 _ _ H1) as [more2 H2].
  destruct (H23 _ _ H2) as [more3 H3].
  exists (more2 ++ more3). by rewrite app_assoc.
Qed.

Lemma extends_mapping_elem (m1 m2 : gmap string (list string))
    (key file : string) (files : list string) :
  extends_mapping m1 m2 -> m1 !! key = Some files -> file ∈ files ->
  exists files', m2 !! key = Some files' /\ file ∈ files'.
Proof.
  intros H12 H1 Hin. destruct (H12 _ _ H1) as [more H2].
  exists (files ++ more). split; [done|]. apply elem_of_app. by left.
Qed.

Variable open_image : string -> Image + exn.

Lemma process_image_success (path : string) (aspect_ratio : Q)
    (indices : gmap string (list string)) :
  measure_aspect_ratio open_image path = Ok aspect_ratio ->
  _process_image open_image path indices
  = Ok (<[str_float_2dp aspect_ratio :=
            default [] (indices !! str_float_2dp aspect_ratio) ++ [path]]>
          indices, []).
Proof.
  intros Hm. unfold _process_image. rewrite Hm. cbn [bind try_except].
  set (key := str_float_2dp aspect_ratio). f_equal. f_equal.
  destruct (decide (key ∈ dom indices)) as [Hin|Hout].
  - by rewrite lookup_total_alt.
  - apply not_elem_of_dom in Hout.
    rewrite lookup_total_insert_eq, Hout, insert_insert_eq. reflexivity.
Qed.

Lemma process_image_extends (path : string)
    (indices indices' : gmap string (list string)) (logs : list log_record) :
  _process_image open_image path indices = Ok (indices', logs) ->
  extends_mapping indices indices'.
Proof.
  intros Hp.
  destruct (measure_aspect_ratio open_image path) as [ar|e|] eqn:Hm.
  - rewrite (process_image_success _ _ _ Hm) in Hp. injection Hp as <- <-.
    intros key files Hk.
    destruct (decide (key = str_float_2dp ar)) as [->|Hne].
    + exists [path]. by rewrite lookup_insert_eq, Hk.
    + exists []. by rewrite lookup_insert_ne, app_nil_r.
  - unfold _process_image in Hp. rewrite Hm in Hp. injection Hp as <- <-.
    apply extends_mapping_refl.
  - by destruct (measure_aspect_ratio_not_out_of_fuel open_image path).
Qed.

End MappingFacts.

(** X12.  [_process_image] never removes or reorders what the mapping holds.
    When the file can be measured, it becomes the last file of the bucket
    of its rounded ratio and every other bucket is left as it was. *)
Theorem process_image_appends_to_one_bucket
    (open_image : string -> Image + exn) (path : string)
    (indices indices' : gmap string (list string)) (logs : list log_record) :
  DreamBoothDataset._process_image open_image path indices = Ok (indices', logs) ->
  LegacyDataset.extends_mapping indices indices' /\
  forall aspect_ratio,
    DreamBoothDataset.measure_aspect_ratio open_image path = Ok aspect_ratio ->
    let key := str_float_2dp aspect_ratio in
    logs = [] /\
    indices' !! key = Some (default [] (indices !! key) ++ [path]) /\
    forall other, other <> key -> indices' !! other = indices !! other.
Proof.
  intros Hp. split; [by eapply process_image_extends|].
  intros ar Hm key.
  rewrite (process_image_success _ _ _ _ Hm) in Hp. injection Hp as <- <-.
  split; [done|]. split.
  - by rewrite lookup_insert_eq.
  - intros other Hne. by rewrite lookup_insert_ne.
Qed.

(** A square file and an empty mapping. *)
Lemma process_image_appends_to_one_bucket_witness :
  LegacyDataset.extends_mapping ∅
    ({[ "1.0" := ["a.png"] ]} : gmap string (list string)).
Proof.
  apply (process_image_appends_to_one_bucket Samples.open_square "a.png" ∅
           {[ "1.0" := ["a.png"] ]} []).
  vm_compute. reflexivity.
Defined.

Section WorkerFacts.

Import DreamBoothDataset LegacyDataset.

Variable open_image : string -> Image + exn.

Lemma bucket_worker_cons_known (file : string) (files : list string)
    (existing : gset string) (indices : gmap string (list string)) out :
  file ∈ existing ->
  _bucket_worker open_image (file :: files) existing indices = Ok out ->
  exists sent ticks logs,
    _bucket_worker open_image files existing indices = Ok (sent, ticks, logs) /\
    out = (sent, 1 :: ticks, logs).
Proof.
  intros Hin Hw. cbn [_bucket_worker] in Hw.
  destruct (decide (file ∈ existing)); [|done].
  bind_inv Hw. injection Hw as <-. eauto.
Qed.

Lemma bucket_worker_cons_new (file : string) (files : list string)
    (existing : gset string) (indices : gmap string (list string)) out :
  file ∉ existing ->
  _bucket_worker open_image (file :: files) existing indices = Ok out ->
  exists indices' errors sent ticks logs,
    _process_image open_image file indices = Ok (indices', errors) /\
    _bucket_worker open_image files existing indices' = Ok (sent, ticks, logs) /\
    out = (indices' :: sent, 1 :: ticks, errors ++ logs).
Proof.
  intros Hin Hw. cbn [_bucket_worker] in Hw.
  destruct (decide (file ∈ existing)); [done|].
  bind_inv Hw. bind_inv Hw. injection Hw as <-. eauto 10.
Qed.

(** What a worker that ran its shard has sent. *)
Lemma bucket_worker_reports (files : list string) (existing : gset string) :
  forall (indices : gmap string (list string)) sent ticks logs,
    _bucket_worker open_image files existing indices = Ok (sent, ticks, logs) ->
    let final := default indices (last sent) in
    ticks = replicate (length files) 1 /\
    length sent = length (filter (fun file => file ∉ existing) files) /\
    Forall (fun m => extends_mapping indices m /\ extends_mapping m final) sent /\
    extends_mapping indices final /\
    forall file aspect_ratio,
      file ∈ files -> file ∉ existing ->
      measure_aspect_ratio open_image file = Ok aspect_ratio ->
      exists bucket,
        final !! str_float_2dp aspect_ratio = Some bucket /\ file ∈ bucket.
Proof.
  induction files as [|file files IH]; intros indices sent ticks logs Hw final.
  - injection Hw as <- <- <-. subst final. cbn.
    repeat split; [constructor|apply extends_mapping_refl|].
    intros ? ? Hin. by apply elem_of_nil in Hin.
  - destruct (decide (file ∈ existing)) as [Hknown|Hnew].
    + apply bucket_worker_cons_known in Hw
        as (sent' & ticks' & logs' & Hrest & [= -> -> ->]); [|done].
      destruct (IH _ _ _ _ Hrest) as (Ht & Hs & Hall & Hext & Hcomplete).
      rewrite filter_cons_False by (by intros ?).
      cbn [length replicate]. rewrite <- Ht.
      repeat split; try done.
      intros f ar Hin Hnk Hm. apply elem_of_cons in Hin as [->|Hin]; [done|].
      by eapply Hcomplete.
    + apply bucket_worker_cons_new in Hw
        as (indices' & errors & sent' & ticks' & logs' & Hp & Hrest
            & [= -> -> ->]); [|done].
      destruct (IH _ _ _ _ Hrest) as (Ht & Hs & Hall & Hext & Hcomplete).
      pose proof (process_image_extends _ _ _ _ _ Hp) as Hstep.
      assert (Hfinal : final = default indices' (last sent')).
      { subst final. rewrite last_cons. by destruct (last sent'). }
      rewrite Hfinal.
      rewrite filter_cons_True by done.
      cbn [length replicate]. rewrite <- Ht, Hs.
      repeat split; try done.
      * constructor; [split; [done|done]|].
        eapply Forall_impl; [exact Hall|].
        intros m [H1 H2]. split; [|done].
        by eapply extends_mapping_trans.
      * by eapply extends_mapping_trans.
      * intros f ar Hin Hnk Hm. apply elem_of_cons in Hin as [->|Hin].
        -- rewrite (process_image_success _ _ _ _ Hm) in Hp.
           injection Hp as <- _.
           eapply extends_mapping_elem; [exact Hext| |].
           ++ apply lookup_insert_eq.
           ++ apply elem_of_app. right. by apply list_elem_of_singleton.
        -- by eapply Hcomplete.
Qed.

End WorkerFacts.

(** X13.  A worker puts one progress increment on the queue for every file of
    its shard and one mapping for every file that is not already known;
    the mappings only grow, and the last one holds every file of the shard
    that is new and could be measured, in the bucket of its rounded
    ratio. *)
Theorem bucket_worker_sends_complete_mapping
    (open_image : string -> Image + exn) (files : list string)
    (existing : gset string) (indices : gmap string (list string))
    (sent : list (gmap string (list string))) (ticks : list Z)
    (logs : list log_record) :
  DreamBoothDataset._bucket_worker open_image files existing indices
    = Ok (sent, ticks, logs) ->
  ticks = replicate (length files) 1 /\
  length sent = length (filter (fun file => file ∉ existing) files) /\
  Forall (LegacyDataset.extends_mapping indices) sent /\
  forall file aspect_ratio,
    file ∈ files -> file ∉ existing ->
    DreamBoothDataset.measure_aspect_ratio open_image file = Ok aspect_ratio ->
    exists final bucket,
      last sent = Some final /\
      final !! str_float_2dp aspect_ratio = Some bucket /\ file ∈ bucket.
Proof.
  intros Hw.
  destruct (bucket_worker_reports open_image files existing indices _ _ _ Hw)
    as (Ht & Hs & Hall & _ & Hcomplete).
  split; [done|]. split; [done|]. split.
  - eapply Forall_impl; [exact Hall|]. by intros m [H _].
  - intros file ar Hin Hnew Hm.
    destruct (Hcomplete file ar Hin Hnew Hm) as (bucket & Hb & Hfb).
    destruct (last sent) as [final|] eqn:Hlast.
    + exists final, bucket. done.
    + exfalso. apply last_None in Hlast. subst sent. cbn in Hs.
      symmetry in Hs. apply length_zero_iff_nil in Hs.
      assert (Hf : file ∈ filter (fun file => file ∉ existing) files)
        by (by apply list_elem_of_filter).
      rewrite Hs in Hf. by apply elem_of_nil in Hf.
Qed.

(** A shard of two square files, none of them known. *)
Lemma bucket_worker_sends_complete_mapping_witness :
  [1; 1] = replicate (length Samples.two_files) 1 /\
  Forall (LegacyDataset.extends_mapping ∅)
    ([{[ "1.0" := ["a.png"] ]}; {[ "1.0" := ["a.png"; "b.png"] ]}]
       : list (gmap string (list string))).
Proof.
  destruct (bucket_worker_sends_complete_mapping Samples.open_square
              Samples.two_files ∅ ∅
              [{[ "1.0" := ["a.png"] ]}; {[ "1.0" := ["a.png"; "b.png"] ]}]
              [1; 1] [])
    as (Hticks & _ & Hgrow & _).
  - vm_compute. reflexivity.
  - split; [exact Hticks|exact Hgrow].
Defined.

Section BulkFacts.

Import DreamBoothDataset LegacyDataset.

Variable open_image : string -> Image + exn.
Variable json_dump : json -> string.

Lemma interleaving_elements {A : Type} (queues : list (list A)) (ms : list A) :
  interleaving queues ms ->
  forall x, x ∈ ms -> exists q, q ∈ queues /\ x ∈ q.
Proof.
  induction 1 as [queues _|queues i y q rest Hi _ IH]; intros x Hx.
  - by apply elem_of_nil in Hx.
  - apply elem_of_cons in Hx as [->|Hx].
    + exists (y :: q). split; [by eapply list_elem_of_lookup_2|left].
    + destruct (IH x Hx) as (q' & Hq' & Hxq').
      apply list_elem_of_lookup in Hq' as [j Hj].
      destruct (decide (i = j)) as [->|Hne].
      * rewrite list_lookup_insert_eq in Hj
          by (by eapply lookup_lt_Some).
        injection Hj as <-.
        exists (y :: q). split; [by eapply list_elem_of_lookup_2|by right].
      * rewrite list_lookup_insert_ne in Hj by done.
        exists q'. split; [by eapply list_elem_of_lookup_2|done].
Qed.

Lemma worker_mappings_extend (self : Dataset) (all_image_files : list string)
    (queues : list (list (gmap string (list string)))) :
  worker_mappings open_image self all_image_files = Ok queues ->
  Forall (Forall (extends_mapping (aspect_ratio_bucket_indices self))) queues.
Proof.
  unfold worker_mappings.
  generalize (array_split all_image_files 8). intros shards. revert queues.
  induction shards as [|shard shards IH]; intros queues Hq; cbn [foldr] in Hq.
  - injection Hq as <-. constructor.
  - bind_inv Hq. bind_inv Hq. injection Hq as <-. constructor; [|by apply IH].
    destruct (bucket_worker_reports open_image _ _ _ _ _ _ E)
      as (_ & _ & Hall & _).
    eapply Forall_impl; [exact Hall|]. by intros m [H _].
Qed.

Lemma dict_update_extends (init acc m : gmap string (list string)) :
  extends_mapping init acc -> extends_mapping init m ->
  extends_mapping init (dict_update acc m).
Proof.
  intros Hacc Hm key files Hk. unfold dict_update.
  destruct (Hm _ _ Hk) as [more Hmore].
  exists more. by apply lookup_union_Some_l.
Qed.

End BulkFacts.

(** X14.  A bulk run never loses or reorders what the index held when it
    started: every bucket of the dataset is, file for file, the front of
    the bucket of the same key in the returned mapping, whatever the order
    in which the partial mappings arrive. *)
Theorem bulk_run_keeps_initial_entries
    (open_image : string -> Image + exn) (json_dump : json -> string)
    (self : DreamBoothDataset.Dataset) (all_image_files : list string)
    (outcome : gmap string (list string) * DreamBoothDataset.Dataset * string) :
  DreamBoothDataset.bulk_run open_image json_dump self all_image_files outcome ->
  LegacyDataset.extends_mapping
    (DreamBoothDataset.aspect_ratio_bucket_indices self) outcome.1.1.
Proof.
  intros (queues & received & Hq & Hi & ->).
  pose proof (worker_mappings_extend open_image _ _ _ Hq) as Hall.
  assert (Hrec : Forall (LegacyDataset.extends_mapping
                           (DreamBoothDataset.aspect_ratio_bucket_indices self))
                        received).
  { apply Forall_forall. intros m Hm.
    destruct (interleaving_elements _ _ Hi m Hm) as (q & Hq' & Hmq).
    rewrite Forall_forall in Hall. specialize (Hall q Hq').
    rewrite Forall_forall in Hall. by apply Hall. }
  unfold DreamBoothDataset.compute_aspect_ratio_bucket_indices. cbn [fst].
  set (init := DreamBoothDataset.aspect_ratio_bucket_indices self) in *.
  assert (Hstart : LegacyDataset.extends_mapping init
                     (if bool_decide (init ≠ ∅) then init else ∅)).
  { case_bool_decide as Hne; [apply extends_mapping_refl|].
    intros key files Hk. rewrite Hne in Hk. by rewrite lookup_empty in Hk. }
  revert Hstart. generalize (if bool_decide (init ≠ ∅) then init else ∅).
  clear Hi. induction Hrec as [|m received Hm _ IH]; intros acc Hacc; [done|].
  cbn [foldl]. apply IH. by apply dict_update_extends.
Qed.

(** A dataset that knows [a.png], run over [a.png] and [b.png]. *)
Lemma bulk_run_keeps_initial_entries_witness :
  LegacyDataset.extends_mapping
    (DreamBoothDataset.aspect_ratio_bucket_indices Samples.dataset_knowing_one)
    (DreamBoothDataset.compute_aspect_ratio_bucket_indices MiniJson.dump
       Samples.dataset_knowing_one Samples.two_files
       [{[ "1.0" := ["a.png"; "b.png"] ]}]).1.1.
Proof.
  apply (bulk_run_keeps_initial_entries Samples.open_square MiniJson.dump
           Samples.dataset_knowing_one Samples.two_files).
  exists [[]; [{[ "1.0" := ["a.png"; "b.png"] ]}]; []; []; []; []; []; []],
         [{[ "1.0" := ["a.png"; "b.png"] ]}].
  split; [vm_compute; reflexivity|]. split; [|reflexivity].
  exact (interleaving_in_order
           [[]; [{[ "1.0" := ["a.png"; "b.png"] ]}]; []; []; []; []; []; []]).
Defined.

Section QuietRuns.

Import DreamBoothDataset LegacyDataset.

Variable open_image : string -> Image + exn.

(** A worker whose files are all known or unreadable only sends copies of
    the mapping it started with. *)
Lemma bucket_worker_sends_copies (files : list string) (existing : gset string)
    (indices : gmap string (list string)) sent ticks logs :
  Forall (fun file => file ∈ existing \/
            exists e, measure_aspect_ratio open_image file = Raise e) files ->
  _bucket_worker open_image files existing indices = Ok (sent, ticks, logs) ->
  Forall (fun m => m = indices) sent.
Proof.
  intros Hall. revert sent ticks logs.
  induction Hall as [|file files Hfile _ IH]; intros sent ticks logs Hw.
  - injection Hw as <- <- <-. constructor.
  - destruct (decide (file ∈ existing)) as [Hknown|Hnew].
    + apply bucket_worker_cons_known in Hw
        as (sent' & ticks' & logs' & Hrest & [= -> -> ->]); [|done].
      by eapply IH.
    + apply bucket_worker_cons_new in Hw
        as (indices' & errors & sent' & ticks' & logs' & Hp & Hrest
            & [= -> -> ->]); [|done].
      destruct Hfile as [?|[e Hm]]; [done|].
      unfold _process_image in Hp. rewrite Hm in Hp. injection Hp as <- <-.
      constructor; [done|]. by eapply IH.
Qed.

End QuietRuns.

(** X15.  When every candidate file is already in some bucket or cannot be
    opened and measured, a bulk run returns the mapping that the dataset
    held before, in whichever order the workers' mappings arrive. *)
Theorem bulk_run_without_new_readable_file_changes_nothing
    (open_image : string -> Image + exn) (json_dump : json -> string)
    (self : DreamBoothDataset.Dataset) (all_image_files : list string)
    (outcome : gmap string (list string) * DreamBoothDataset.Dataset * string) :
  Forall (fun file =>
            file ∈ DreamBoothDataset.files_of
                     (DreamBoothDataset.aspect_ratio_bucket_indices self) \/
            exists e,
              DreamBoothDataset.measure_aspect_ratio open_image file = Raise e)
         all_image_files ->
  DreamBoothDataset.bulk_run open_image json_dump self all_image_files outcome ->
  outcome.1.1 = DreamBoothDataset.aspect_ratio_bucket_indices self.
Proof.
  intros Hquiet (queues & received & Hq & Hi & ->).
  set (init := DreamBoothDataset.aspect_ratio_bucket_indices self) in *.
  assert (Hqueues : Forall (Forall (fun m => m = init)) queues).
  { unfold DreamBoothDataset.worker_mappings in Hq. fold init in Hq.
    assert (Hshards : Forall (Forall (fun file =>
              file ∈ DreamBoothDataset.files_of init \/
              exists e, DreamBoothDataset.measure_aspect_ratio open_image file
                        = Raise e))
              (array_split all_image_files 8)).
    { apply Forall_forall. intros shard Hs. apply Forall_forall. intros x Hx.
      rewrite Forall_forall in Hquiet. apply Hquiet.
      eapply split_sizes_elements; eauto. }
    clear Hi. revert queues Hq.
    induction Hshards as [|shard shards Hshard _ IH]; intros queues Hq;
      cbn [foldr] in Hq.
    - injection Hq as <-. constructor.
    - bind_inv Hq. bind_inv Hq. injection Hq as <-.
      constructor; [|by apply IH].
      by eapply bucket_worker_sends_copies. }
  assert (Hreceived : Forall (fun m => m = init) received).
  { apply Forall_forall. intros m Hm.
    destruct (interleaving_elements _ _ Hi m Hm) as (q & Hq' & Hmq).
    rewrite Forall_forall in Hqueues. specialize (Hqueues q Hq').
    rewrite Forall_forall in Hqueues. by apply Hqueues. }
  unfold DreamBoothDataset.compute_aspect_ratio_bucket_indices. cbn [fst].
  fold init.
  assert (Hstart : (if bool_decide (init ≠ ∅) then init else ∅) = init).
  { case_bool_decide as Hne; [done|]. by rewrite Hne. }
  rewrite Hstart. clear Hi Hstart.
  induction Hreceived as [|m received -> _ IH]; [done|].
  cbn [foldl]. unfold DreamBoothDataset.dict_update at 2.
  by rewrite (idemp (∪) init).
Qed.

(** A dataset that knows [a.png], run over [a.png] and the corrupt
    [bad.png]. *)
Lemma bulk_run_without_new_readable_file_changes_nothing_witness :
  (DreamBoothDataset.compute_aspect_ratio_bucket_indices MiniJson.dump
     Samples.dataset_knowing_one ["a.png"; "bad.png"]
     [{[ "1.0" := ["a.png"] ]}]).1.1
  = DreamBoothDataset.aspect_ratio_bucket_indices Samples.dataset_knowing_one.
Proof.
  apply (bulk_run_without_new_readable_file_changes_nothing
           Samples.open_one_corrupt MiniJson.dump
           Samples.dataset_knowing_one ["a.png"; "bad.png"]).
  - constructor; [left; vm_compute; reflexivity|].
    constructor; [right; eexists; vm_compute; reflexivity|constructor].
  - exists [[]; [{[ "1.0" := ["a.png"] ]}]; []; []; []; []; []; []],
           [{[ "1.0" := ["a.png"] ]}].
    split; [vm_compute; reflexivity|]. split; [|reflexivity].
    exact (interleaving_in_order
             [[]; [{[ "1.0" := ["a.png"] ]}]; []; []; []; []; []; []]).
Defined.

(** X16.  After [compute_aspect_ratio_bucket_indices], every candidate file is
    in [instance_images_path] as a string, and a second computation over
    the same files leaves that list and [num_instance_images] as they
    are. *)
Theorem computing_twice_adds_no_known_file
    (json_dump : json -> string) (self : DreamBoothDataset.Dataset)
    (all_image_files : list string)
    (received1 received2 : list (gmap string (list string))) :
  let after1 :=
    (DreamBoothDataset.compute_aspect_ratio_bucket_indices json_dump
       self all_image_files received1).1.2 in
  let after2 :=
    (DreamBoothDataset.compute_aspect_ratio_bucket_indices json_dump
       after1 all_image_files received2).1.2 in
  (forall file, file ∈ all_image_files ->
     DreamBoothDataset.StrObj file ∈ DreamBoothDataset.instance_images_path after1) /\
  DreamBoothDataset.instance_images_path after2
    = DreamBoothDataset.instance_images_path after1 /\
  DreamBoothDataset.num_instance_images after2
    = DreamBoothDataset.num_instance_images after1 /\
  DreamBoothDataset.num_instance_images after1
    = length (DreamBoothDataset.instance_images_path after1).
Proof.
  intros after1 after2.
  assert (Hknown : forall file, file ∈ all_image_files ->
    DreamBoothDataset.StrObj file ∈ DreamBoothDataset.instance_images_path after1).
  { intros file Hin. subst after1. cbn.
    destruct (decide (DreamBoothDataset.StrObj file
                      ∈ DreamBoothDataset.instance_images_path self)) as [Hold|Hnew].
    - apply elem_of_app. by left.
    - apply elem_of_app. right. apply list_elem_of_fmap_2.
      by apply list_elem_of_filter. }
  assert (Hnone : filter (fun file => DreamBoothDataset.StrObj file
                            ∉ DreamBoothDataset.instance_images_path after1)
                    all_image_files = []).
  { revert Hknown. generalize (DreamBoothDataset.instance_images_path after1).
    intros known Hknown.
    induction all_image_files as [|file files IH]; [done|].
    rewrite filter_cons_False by (intros Hnot; apply Hnot, Hknown; left).
    apply IH. intros file' Hin. apply Hknown. by right. }
  split; [exact Hknown|].
  subst after2. cbn [fst snd DreamBoothDataset.compute_aspect_ratio_bucket_indices
                     DreamBoothDataset.instance_images_path
                     DreamBoothDataset.num_instance_images].
  rewrite Hnone. cbn [fmap list_fmap]. rewrite app_nil_r.
  split; [done|]. split; [|done].
  subst after1. reflexivity.
Qed.

(** X18.  [_add_file_to_cache] always returns, and does to the dataset's own
    mapping exactly what [_process_image] does to the mapping it is given,
    with the same log; the list of known files and the two counters are
    left as they were. *)
Theorem add_file_to_cache_acts_as_process_image
    (open_image : string -> Image + exn)
    (self : DreamBoothDataset.Dataset) (file_path : string) :
  exists indices' logs,
    DreamBoothDataset._process_image open_image file_path
      (DreamBoothDataset.aspect_ratio_bucket_indices self) = Ok (indices', logs) /\
    LegacyDataset._add_file_to_cache open_image self file_path
    = Ok (DreamBoothDataset.mkDataset indices'
            (DreamBoothDataset.instance_images_path self)
            (DreamBoothDataset.num_instance_images self)
            (DreamBoothDataset._length self), logs) /\
    LegacyDataset.extends_mapping
      (DreamBoothDataset.aspect_ratio_bucket_indices self) indices'.
Proof.
  destruct (process_image_returns open_image file_path
              (DreamBoothDataset.aspect_ratio_bucket_indices self))
    as [[indices' logs] Hp].
  exists indices', logs. split; [exact Hp|]. split.
  - unfold LegacyDataset._add_file_to_cache.
    unfold DreamBoothDataset._process_image in Hp.
    destruct (DreamBoothDataset.measure_aspect_ratio open_image file_path)
      as [ar|e|]; cbn in *.
    + injection Hp as <- <-. reflexivity.
    + injection Hp as <- <-. by destruct self.
    + discriminate.
  - by eapply process_image_extends.
Qed.

Section SplitFacts.

Lemma split_sizes_concat {A : Type} (sizes : list nat) :
  forall l : list A,
    length l = sum_list sizes -> concat (split_sizes l sizes) = l.
Proof.
  induction sizes as [|k sizes IH]; intros l Hlen; cbn in *.
  - symmetry. by apply nil_length_inv.
  - rewrite IH by (rewrite length_drop; lia). apply take_drop.
Qed.

Lemma array_split_concat {A : Type} (l : list A) (sections : nat) :
  (0 < sections)%nat -> concat (array_split l sections) = l.
Proof.
  intros Hpos. unfold array_split. apply split_sizes_concat.
  rewrite sum_list_with_app, !sum_list_replicate. unfold id in *.
  pose proof (Nat.div_mod_eq (length l) sections) as Hdm.
  pose proof (Nat.mod_upper_bound (length l) sections ltac:(lia)) as Hlt.
  nia.
Qed.

End SplitFacts.

(** X17.  Every candidate file, known or new, readable or not, makes its worker
    put exactly one increment of 1 on the progress queue: the increments
    of the eight workers add up to the total of the progress bar,
    [len(all_image_files)]. *)
Theorem workers_tick_once_per_file
    (open_image : string -> Image + exn)
    (self : DreamBoothDataset.Dataset) (all_image_files : list string) :
  exists ticks,
    LegacyDataset.worker_ticks open_image self all_image_files = Ok ticks /\
    length ticks = 8%nat /\
    Forall (Forall (fun tick => tick = 1)) ticks /\
    length (concat ticks) = length all_image_files.
Proof.
  enough (exists ticks,
            LegacyDataset.worker_ticks open_image self all_image_files = Ok ticks /\
            length ticks = 8%nat /\
            Forall (Forall (fun tick => tick = 1)) ticks /\
            length (concat ticks)
            = length (concat (array_split all_image_files 8)))
    as (ticks & H1 & H2 & H3 & H4).
  { exists ticks. rewrite array_split_concat in H4 by lia. done. }
  unfold LegacyDataset.worker_ticks.
  assert (Hshards : length (array_split all_image_files 8) = 8%nat).
  { unfold array_split.
    pose proof (Nat.mod_upper_bound (length all_image_files) 8 ltac:(lia)).
    generalize dependent (length all_image_files `mod` 8)%nat.
    generalize (length all_image_files `div` 8)%nat. intros q r Hr.
    revert all_image_files.
    assert (Hlen : forall (sizes : list nat) (l : list string),
              length (split_sizes l sizes) = length sizes).
    { induction sizes as [|k sizes IH]; intros l; cbn; [done|]. by rewrite IH. }
    intros l. rewrite Hlen, length_app, !length_replicate. lia. }
  revert Hshards. generalize (array_split all_image_files 8).
  generalize 8%nat. intros n shards. revert n.
  induction shards as [|shard shards IH]; intros n Hn; cbn [foldr length] in *.
  - exists []. subst n. repeat split; constructor.
  - destruct n as [|n]; [discriminate|].
    destruct (IH n ltac:(lia)) as (rest & -> & Hlen & Hones & Hsum).
    destruct (bucket_worker_returns open_image shard
                (DreamBoothDataset.files_of
                   (DreamBoothDataset.aspect_ratio_bucket_indices self))
                (DreamBoothDataset.aspect_ratio_bucket_indices self))
      as [[[sent ticks] logs] Hw].
    rewrite Hw. cbn [bind].
    destruct (bucket_worker_reports open_image _ _ _ _ _ _ Hw) as (Hticks & _).
    exists (ticks :: rest). split; [done|]. split; [cbn; lia|]. split.
    + constructor; [|done]. rewrite Hticks. by apply Forall_replicate.
    + cbn [concat]. rewrite !length_app, Hsum, Hticks, length_replicate. done.
Qed.

(* ===================================================================== *)
(** * Order and exactness of the float model                               *)
(* ===================================================================== *)

Section FloatOrder.

Local Open Scope Q_scope.














End FloatOrder.

(* ===================================================================== *)
(** * Conditioning images                                                  *)
(* ===================================================================== *)



(** X22.  [_resize_for_condition_image] raises [ZeroDivisionError] for an image
    of height zero, and for an image at least 201 times as high as wide,
    whose ratio rounds to 0.0. *)
Theorem resize_for_condition_image_fails_on_very_tall_image
    (input_image : Image) (resolution : Z) :
  img_height input_image = 0 \/
  (0 <= img_width input_image /\ 0 < img_height input_image /\
   201 * img_width input_image <= img_height input_image) ->
  LegacyDataset._resize_for_condition_image input_image resolution
  = Raise ZeroDivisionError.
Proof.
  destruct input_image as [w h o]. cbn [img_width img_height].
  unfold LegacyDataset._resize_for_condition_image, convert_rgb, img_size.
  cbn [img_width img_height].
  intros [->|(Hw & Hh & Hwh)]; [reflexivity|].
  destruct (Z.eqb_spec h 0) as [?|_]; [lia|].
  pose proof (aspect_ratio_of_tall_size (mkArgs 1 None) w h eq_refl Hw Hwh Hh)
    as Har.
  unfold MultiaspectImage.calculate_image_aspect_ratio in Har.
  destruct (Z.eqb_spec h 0) as [?|_]; [lia|].
  cbn [aspect_bucket_rounding default] in Har. injection Har as ->.
  destruct (Z.ltb_spec w h) as [_|?]; [reflexivity|lia].
Qed.

Lemma resize_for_condition_image_fails_on_very_tall_image_witness :
  LegacyDataset._resize_for_condition_image (mkImage 5 1005 1) 512
  = Raise ZeroDivisionError.
Proof.
  apply (resize_for_condition_image_fails_on_very_tall_image (mkImage 5 1005 1) 512).
  right. cbn. lia.
Defined.

(* ===================================================================== *)
(** * Enumerating the image files                                          *)
(* ===================================================================== *)

Section WalkFacts.

Import LegacyDataset.

Variable listing : string -> option (list dir_entry).

Lemma collect_ok {A : Type} (f : A -> result (list string))
    (entries : list A) (below : list string) :
  foldr (fun p acc =>
           let! found := f p in
           let! rest := acc in
           Ok (found ++ rest)) (Ok []) entries = Ok below ->
  (forall p, p ∈ entries -> exists found, f p = Ok found /\ found ⊆ below) /\
  (forall file, file ∈ below ->
     exists p found, p ∈ entries /\ f p = Ok found /\ file ∈ found).
Proof.
  revert below. induction entries as [|p entries IH]; intros below H;
    cbn [foldr] in H.
  - injection H as <-. split.
    + intros p Hp. by apply elem_of_nil in Hp.
    + intros file Hf. by apply elem_of_nil in Hf.
  - bind_inv H. bind_inv H. injection H as <-.
    destruct (IH _ eq_refl) as [IH1 IH2]. split.
    + intros q Hq. apply elem_of_cons in Hq as [->|Hq].
      * eexists. split; [exact E|]. intros x Hx. apply elem_of_app. by left.
      * destruct (IH1 q Hq) as (found & Hf & Hsub).
        exists found. split; [done|]. intros x Hx. apply elem_of_app.
        right. by apply Hsub.
    + intros file Hf. apply elem_of_app in Hf as [Hf|Hf].
      * exists p. eexists. split; [left|]. by split.
      * destruct (IH2 file Hf) as (q & found & Hq & Hfq & Hin).
        exists q, found. split; [by right|]. by split.
Qed.

Lemma collect_returns {A : Type} (f : A -> result (list string))
    (entries : list A) :
  Forall (fun p => exists found, f p = Ok found) entries ->
  exists below,
    foldr (fun p acc =>
             let! found := f p in
             let! rest := acc in
             Ok (found ++ rest)) (Ok []) entries = Ok below.
Proof.
  induction 1 as [|p entries [found Hf] _ [below IH]]; cbn [foldr].
  - eauto.
  - rewrite Hf, IH. cbn. eauto.
Qed.

Lemma collect_not_ok {A : Type} (f : A -> result (list string))
    (entries : list A) (p : A) :
  p ∈ entries -> result_value (f p) = None ->
  result_value
    (foldr (fun p acc =>
              let! found := f p in
              let! rest := acc in
              Ok (found ++ rest)) (Ok []) entries) = None.
Proof.
  intros Hp Hf.
  destruct (foldr _ _ entries) as [below| |] eqn:E; [|done..].
  destruct (collect_ok f entries below E) as [H1 _].
  destruct (H1 p Hp) as (found & Hfound & _). by rewrite Hfound in Hf.
Qed.

Lemma reachable_trans (root dir dir' : string) :
  reachable listing root dir -> reachable listing dir dir' ->
  reachable listing root dir'.
Proof.
  intros Hrd. induction 1.
  - done.
  - by eapply reachable_directory.
  - by eapply reachable_symlink.
Qed.

Lemma rglob_sound (fuel : nat) :
  forall (root : string) (found : list string) (file : string),
    rglob_follow_symlinks listing fuel root = Ok found -> file ∈ found ->
    exists dir entries name,
      reachable listing root dir /\ listing dir = Some entries /\
      name ∈ entry_name <$> entries /\ matches_pattern name = true /\
      file = join_path dir name.
Proof.
  induction fuel as [|fuel IH]; intros root found file Hrun Hin;
    cbn [rglob_follow_symlinks] in Hrun; [discriminate|].
  destruct (listing root) as [entries|] eqn:Hl; [|discriminate].
  bind_inv Hrun. injection Hrun as <-.
  apply elem_of_app in Hin as [Hin|Hin].
  - apply list_elem_of_fmap in Hin as (name & -> & Hname).
    apply list_elem_of_filter in Hname as [Hm Hname].
    exists root, entries, name. repeat split; try done. constructor.
  - destruct (collect_ok _ _ _ E) as [_ H2].
    destruct (H2 file Hin) as (p & found_p & Hp & Hfp & Hfile).
    destruct (kind p) as [| |real_path] eqn:Hk.
    + injection Hfp as <-. by apply elem_of_nil in Hfile.
    + destruct (IH _ _ _ Hfp Hfile) as (dir & es & name & Hr & Hd & Hn & Hm & ->).
      exists dir, es, name. repeat split; try done.
      eapply reachable_trans; [|exact Hr].
      eapply reachable_directory; [constructor|exact Hl|exact Hp|exact Hk].
    + destruct (decide (is_Some (listing real_path))) as [Hsome|Hnone].
      * destruct (IH _ _ _ Hfp Hfile) as (dir & es & name & Hr & Hd & Hn & Hm & ->).
        exists dir, es, name. repeat split; try done.
        eapply reachable_trans; [|exact Hr].
        eapply reachable_symlink; [constructor|exact Hl|exact Hp|exact Hk|exact Hsome].
      * injection Hfp as <-. by apply elem_of_nil in Hfile.
Qed.

Lemma rglob_enters (root dir : string) :
  reachable listing root dir ->
  forall (fuel : nat) (found : list string),
    rglob_follow_symlinks listing fuel root = Ok found ->
    exists fuel' found',
      rglob_follow_symlinks listing fuel' dir = Ok found' /\ found' ⊆ found.
Proof.
  induction 1 as [|dir entries p Hr IH Hl Hp Hk
                  |dir entries p real_path Hr IH Hl Hp Hk Hsome];
    intros fuel found Hrun.
  - by exists fuel, found.
  - destruct (IH _ _ Hrun) as (fuel' & found' & Hrun' & Hsub).
    destruct fuel' as [|fuel']; [discriminate|].
    cbn [rglob_follow_symlinks] in Hrun'. rewrite Hl in Hrun'.
    bind_inv Hrun'. injection Hrun' as <-.
    destruct (collect_ok _ _ _ E) as [H1 _].
    destruct (H1 p Hp) as (found_p & Hfp & Hsub_p). rewrite Hk in Hfp.
    exists fuel', found_p. split; [done|].
    intros x Hx. apply Hsub, elem_of_app. right. by apply Hsub_p.
  - destruct (IH _ _ Hrun) as (fuel' & found' & Hrun' & Hsub).
    destruct fuel' as [|fuel']; [discriminate|].
    cbn [rglob_follow_symlinks] in Hrun'. rewrite Hl in Hrun'.
    bind_inv Hrun'. injection Hrun' as <-.
    destruct (collect_ok _ _ _ E) as [H1 _].
    destruct (H1 p Hp) as (found_p & Hfp & Hsub_p). rewrite Hk in Hfp.
    destruct (decide (is_Some (listing real_path))); [|done].
    exists fuel', found_p. split; [done|].
    intros x Hx. apply Hsub, elem_of_app. right. by apply Hsub_p.
Qed.

Lemma rglob_self_link_never_returns (dir : string)
    (entries : list dir_entry) (p : dir_entry) :
  listing dir = Some entries -> p ∈ entries -> kind p = Symlink dir ->
  forall fuel, result_value (rglob_follow_symlinks listing fuel dir) = None.
Proof.
  intros Hl Hp Hk. induction fuel as [|fuel IH]; [done|].
  cbn [rglob_follow_symlinks]. rewrite Hl.
  match goal with
  | |- result_value (bind ?r _) = None => assert (Hr : result_value r = None)
  end.
  { apply (collect_not_ok _ entries p Hp). rewrite Hk.
    destruct (decide (is_Some (listing dir))) as [_|Hnone]; [exact IH|].
    destruct Hnone. by rewrite Hl. }
  destruct (foldr _ _ entries); [discriminate|done..].
Qed.

End WalkFacts.

(** X23.  When [rglob_follow_symlinks] returns, the paths it yields are exactly
    the entries with a matching name of the directories it enters: the
    root, the real subdirectories below it and the targets of the links
    to directories found there.  The kind of the matching entry plays no
    part: a directory whose name matches is yielded like a file. *)
Theorem rglob_follow_symlinks_yields_matching_entries
    (listing : string -> option (list LegacyDataset.dir_entry))
    (fuel : nat) (root : string) (found : list string) :
  LegacyDataset.rglob_follow_symlinks listing fuel root = Ok found ->
  forall file,
    file ∈ found <->
    exists dir entries name,
      LegacyDataset.reachable listing root dir /\
      listing dir = Some entries /\
      name ∈ LegacyDataset.entry_name <$> entries /\
      LegacyDataset.matches_pattern name = true /\
      file = LegacyDataset.join_path dir name.
Proof.
  intros Hrun file. split.
  - by apply rglob_sound with (fuel := fuel).
  - intros (dir & entries & name & Hr & Hl & Hn & Hm & ->).
    destruct (rglob_enters listing root dir Hr fuel found Hrun)
      as (fuel' & found' & Hrun' & Hsub).
    apply Hsub.
    destruct fuel' as [|fuel']; [discriminate|].
    cbn [LegacyDataset.rglob_follow_symlinks] in Hrun'. rewrite Hl in Hrun'.
    bind_inv Hrun'. injection Hrun' as <-.
    apply elem_of_app. left. apply list_elem_of_fmap_2.
    by apply list_elem_of_filter.
Qed.

(** The sample directory: one image at the top, one in the subdirectory,
    one behind the link. *)
Lemma rglob_follow_symlinks_yields_matching_entries_witness :
  "data/c.jpeg" ∈ ["data/a.png"; "data/sub/b.JPG"; "other/d.png"] <->
  exists dir entries name,
    LegacyDataset.reachable MoreSamples.sample_tree "data" dir /\
    MoreSamples.sample_tree dir = Some entries /\
    name ∈ LegacyDataset.entry_name <$> entries /\
    LegacyDataset.matches_pattern name = true /\
    "data/c.jpeg" = LegacyDataset.join_path dir name.
Proof.
  apply (rglob_follow_symlinks_yields_matching_entries
           MoreSamples.sample_tree 2 "data"
           ["data/a.png"; "data/sub/b.JPG"; "other/d.png"]).
  vm_compute. reflexivity.
Defined.

(** X24.  A symbolic link that leads to the directory it lies in keeps
    [rglob_follow_symlinks] from returning, from whichever root that
    directory is entered: no depth of recursion is enough. *)
Theorem rglob_follow_symlinks_never_returns_on_link_cycle
    (listing : string -> option (list LegacyDataset.dir_entry))
    (root dir : string) (entries : list LegacyDataset.dir_entry)
    (p : LegacyDataset.dir_entry) :
  LegacyDataset.reachable listing root dir ->
  listing dir = Some entries -> p ∈ entries ->
  LegacyDataset.kind p = LegacyDataset.Symlink dir ->
  forall fuel,
    result_value (LegacyDataset.rglob_follow_symlinks listing fuel root) = None.
Proof.
  intros Hr Hl Hp Hk fuel.
  destruct (LegacyDataset.rglob_follow_symlinks listing fuel root)
    as [found| |] eqn:Hrun; [|done..].
  destruct (rglob_enters listing root dir Hr fuel found Hrun)
    as (fuel' & found' & Hrun' & _).
  pose proof (rglob_self_link_never_returns listing dir entries p Hl Hp Hk fuel')
    as Hnone.
  by rewrite Hrun' in Hnone.
Qed.

(** A directory with a link to itself. *)
Lemma rglob_follow_symlinks_never_returns_on_link_cycle_witness :
  result_value
    (LegacyDataset.rglob_follow_symlinks MoreSamples.looping_tree 1000 "data")
  = None.
Proof.
  refine (rglob_follow_symlinks_never_returns_on_link_cycle
            MoreSamples.looping_tree "data" "data"
            [LegacyDataset.mkEntry "a.png" LegacyDataset.RegularFile;
             LegacyDataset.mkEntry "self" (LegacyDataset.Symlink "data")]
            (LegacyDataset.mkEntry "self" (LegacyDataset.Symlink "data"))
            _ _ _ _ 1000%nat).
  - constructor.
  - reflexivity.
  - right. left.
  - reflexivity.
Defined.

(** X25.  On a hierarchy in which no chain of subdirectories and links to
    directories is longer than [depth], [rglob_follow_symlinks] returns
    with any recursion depth above [depth]. *)
Theorem rglob_follow_symlinks_returns_on_bounded_depth
    (listing : string -> option (list LegacyDataset.dir_entry))
    (depth : nat) :
  forall (root : string) (fuel : nat),
    LegacyDataset.depth_within listing depth root -> (depth < fuel)%nat ->
    exists found,
      LegacyDataset.rglob_follow_symlinks listing fuel root = Ok found.
Proof.
  induction depth as [|depth IH]; intros root fuel (entries & Hl & Hall) Hfuel;
    (destruct fuel as [|fuel]; [lia|]);
    cbn [LegacyDataset.rglob_follow_symlinks]; rewrite Hl.
  - match goal with
    | |- exists found, bind ?r _ = _ => assert (Hr : exists below, r = Ok below)
    end.
    { apply collect_returns. eapply Forall_impl; [exact Hall|].
      intros p Hp. cbn beta in Hp.
      destruct (LegacyDataset.kind p) as [| |real_path]; [eauto|done|].
      destruct (decide (is_Some (listing real_path))); [done|eauto]. }
    destruct Hr as [below ->]. cbn. eauto.
  - match goal with
    | |- exists found, bind ?r _ = _ => assert (Hr : exists below, r = Ok below)
    end.
    { apply collect_returns. eapply Forall_impl; [exact Hall|].
      intros p Hp. cbn beta in Hp.
      destruct (LegacyDataset.kind p) as [| |real_path]; [eauto| |].
      - apply IH; [done|lia].
      - destruct (decide (is_Some (listing real_path))); [|eauto].
        apply IH; [by apply Hp|lia]. }
    destruct Hr as [below ->]. cbn. eauto.
Qed.

(** The sample directory has depth 1. *)
Lemma rglob_follow_symlinks_returns_on_bounded_depth_witness :
  exists found,
    LegacyDataset.rglob_follow_symlinks MoreSamples.sample_tree 2 "data"
    = Ok found.
Proof.
  apply (rglob_follow_symlinks_returns_on_bounded_depth
           MoreSamples.sample_tree 1 "data" 2); [|lia].
  eexists. split; [reflexivity|].
  repeat constructor.
  - eexists. split; [reflexivity|]. repeat constructor.
  - intros _. eexists. split; [reflexivity|]. repeat constructor.
Defined.

Section PatternFacts.



End PatternFacts.


(* ===================================================================== *)
(** * Construction of the dataset and caption dropout                      *)
(* ===================================================================== *)

(** X19.  A dataset constructed over an existing root counts every enumerated
    image file on top of every entry of the root: [iterdir] fills
    [instance_images_path] with path objects, the cache update compares
    strings with them and so appends every candidate, and [__len__] is
    the length of the list that results. *)
Theorem constructed_dataset_counts_root_entries_and_image_files
    (json_dump : json -> string) (entries all_image_files : list string)
    (received : list (gmap string (list string))) :
  exists self,
    LegacyDataset.__init__ json_dump (Some entries) all_image_files received
      = Ok self /\
    DreamBoothDataset.instance_images_path self
      = (DreamBoothDataset.PathObj <$> entries)
        ++ (DreamBoothDataset.StrObj <$> all_image_files) /\
    LegacyDataset.__len__ self
      = (length entries + length all_image_files)%nat /\
    DreamBoothDataset.num_instance_images self = LegacyDataset.__len__ self.
Proof.
  eexists. split; [reflexivity|].
  cbn [DreamBoothDataset.instance_images_path
       DreamBoothDataset.num_instance_images LegacyDataset.__len__
       DreamBoothDataset._length DreamBoothDataset.store_indices
       DreamBoothDataset.compute_aspect_ratio_bucket_indices].
  assert (Hall : filter (fun file => DreamBoothDataset.StrObj file
                           ∉ DreamBoothDataset.PathObj <$> entries)
                   all_image_files = all_image_files).
  { induction all_image_files as [|file files IH]; [done|].
    rewrite filter_cons_True, IH; [done|].
    intros Hin. apply list_elem_of_fmap in Hin as (p & [=] & _). }
  rewrite Hall, length_app, !length_fmap. done.
Qed.

Section DropoutFacts.

Import LegacyDataset.

Lemma caption_loop_interval_bump_mod (c : Z) :
  0 <= c <= 100 -> caption_loop_interval_bump c = (c + 1) mod 101.
Proof.
  intros Hc. unfold caption_loop_interval_bump.
  destruct (Z.ltb_spec 100 (c + 1)).
  - assert (c = 100) as -> by lia. reflexivity.
  - by rewrite Z.mod_small by lia.
Qed.

Lemma dropout_schedule_lookup (interval : Z) (n : nat) :
  0 < interval ->
  forall (c : Z) (k : nat),
    0 <= c <= 100 -> (k < n)%nat ->
    dropout_schedule n interval c !! k
    = Some (((c + Z.of_nat k) mod 101) mod interval =? 0).
Proof.
  intros Hi. induction n as [|n IH]; intros c k Hc Hk; [lia|].
  cbn [dropout_schedule]. unfold caption_dropout.
  destruct (Z.ltb_spec 0 interval) as [_|?]; [|lia].
  destruct k as [|k]; cbn [lookup list_lookup].
  - rewrite Z.add_0_r, (Z.mod_small c 101) by lia. done.
  - change (dropout_schedule n interval (caption_loop_interval_bump c) !! k
            = Some (((c + Z.of_nat (S k)) mod 101) mod interval =? 0)).
    rewrite caption_loop_interval_bump_mod by done.
    rewrite IH; [|pose proof (Z.mod_pos_bound (c + 1) 101); lia|lia].
    do 3 f_equal. rewrite Zplus_mod_idemp_l. f_equal. lia.
Qed.

End DropoutFacts.

(** X20.  The caption counter runs through 0 to 100 and starts again, so with a
    positive dropout interval the call number [k] of [__getitem__]
    (counted from 0, the counter starting at 0) drops its caption exactly
    when [k mod 101] is a multiple of the interval: the captions of calls
    0, 101, 202, ... are dropped whatever the interval is. *)
Theorem caption_dropout_follows_counter_of_period_101
    (caption_dropout_interval : Z) (n k : nat) :
  0 < caption_dropout_interval -> (k < n)%nat ->
  LegacyDataset.dropout_schedule n caption_dropout_interval 0 !! k
  = Some (bool_decide ((Z.of_nat k mod 101) mod caption_dropout_interval = 0))
  /\
  LegacyDataset.dropout_schedule (101 * S k) caption_dropout_interval 0
    !! (101 * k)%nat = Some true.
Proof.
  intros Hi Hk. split.
  - rewrite (dropout_schedule_lookup _ _ Hi 0 k) by lia.
    rewrite Z.add_0_l. f_equal.
    destruct (Z.eqb_spec ((Z.of_nat k mod 101) mod caption_dropout_interval) 0).
    + by rewrite bool_decide_eq_true_2.
    + by rewrite bool_decide_eq_false_2.
  - rewrite (dropout_schedule_lookup _ _ Hi 0 (101 * k)) by lia.
    rewrite Z.add_0_l, Nat2Z.inj_mul, Z.mul_comm, Z_mod_mult.
    by rewrite Z.mod_0_l by lia.
Qed.

Lemma caption_dropout_follows_counter_of_period_101_witness :
  LegacyDataset.dropout_schedule 200 7 0 !! 101%nat
  = Some (bool_decide ((Z.of_nat 101 mod 101) mod 7 = 0))
  /\
  LegacyDataset.dropout_schedule (101 * 102) 7 0 !! (101 * 101)%nat = Some true.
Proof.
  apply (caption_dropout_follows_counter_of_period_101 7 200 101); lia.
Defined.

(* ===================================================================== *)
(** * Instances of the earlier lemmas on [prepare_image] and [_resize_image] *)
(* ===================================================================== *)

(** The photograph at 1024 pixels, sixteen alignment steps, under the
    oversized-source policy. *)
Lemma downsample_branch_keeps_target_of_aligned_pixel_resolution_witness :
  exists image' image_size original_aspect_ratio,
    MultiaspectImage.derive_image_size (Some Samples.photo_3000x2000) None
      = Ok (image', image_size) /\
    MultiaspectImage.calculate_image_aspect_ratio Samples.args64
      (MultiaspectImage.FromTuple image_size) = Ok original_aspect_ratio /\
    MultiaspectImage.calculate_new_size_by_pixel_edge Samples.args64 100
      original_aspect_ratio (inject_Z (16 * 64))
    = Ok (1536, 1024, (3 # 2)%Q).
Proof.
  apply (downsample_branch_keeps_target_of_aligned_pixel_resolution
           Samples.args64 Samples.pixel_backend Samples.corner_crop 100 16
           (Some Samples.photo_3000x2000) None "photos"
           MoreSamples.locals_downsampled).
  - reflexivity.
  - lia.
  - vm_compute. reflexivity.
  - reflexivity.
Defined.

